(** * Credential lookup of the service-provider-integration operator

    A shallow embedding of [pkg/serviceprovider/lookup.go] (the generic
    lookup engine) and of the GitLab service provider (access check and scope
    validation), with the properties its specification states about them.

    Conventions of the embedding:
    - a Go [error] value is a term of [error]; a nilable error is an
      [option error];
    - a Go result pair [(v, err)] is a Rocq pair whose components are options
      where Go admits [nil];
    - Go [int] indices are in [Z];
    - a function that calls collaborators (object store, metadata cache,
      token filter, token storage, HTTP client, GitLab client) yields, with
      its result, the list of the calls it made; a run-time panic is an
      outcome of its own;
    - the collaborators themselves are not part of the sources at hand: they
      are fields of the records [GenericLookup], [Client] and [Gitlab], as
      they are fields and interfaces in the Go code. *)

From Stdlib Require Import String Ascii List ZArith Lia Permutation Bool.
From stdpp Require Import base gmap strings list pretty.
Import ListNotations.

Set Warnings "-register-all".
Open Scope Z_scope.

(** ** Go errors *)

(** [errors.New], [fmt.Errorf] with one [%w] verb, the aggregate of
    [k8s.io/apimachinery/pkg/util/errors], and errors made by collaborators. *)
Inductive error : Type :=
| errors_New (text : string)
| fmt_Errorf (before : string) (cause : error) (after : string)
| aggregate (errs : list error)
| foreign (text : string).

(** [errors.Unwrap]: only [fmt.Errorf] with [%w] wraps a single cause. *)
Definition errors_Unwrap (e : error) : option error :=
  match e with
  | fmt_Errorf _ cause _ => Some cause
  | _ => None
  end.

(** [Aggregate.Errors()]: the error set of an aggregate. *)
Definition Errors (e : error) : list error :=
  match e with
  | aggregate errs => errs
  | _ => []
  end.

(** [kubeerrors.NewAggregate]: nil for an empty list. An [error] is never nil
    here, so the filtering of nil entries keeps every entry. *)
Definition NewAggregate (errlist : list error) : option error :=
  match errlist with
  | [] => None
  | _ => Some (aggregate errlist)
  end.

(** ** The Go library functions the code calls on strings and slices *)

(** [strings.Index]: byte index of the first instance, -1 when absent. *)
Definition strings_Index (s substr : string) : Z :=
  match String.index 0 substr s with
  | Some n => Z.of_nat n
  | None => -1
  end.

(** [strings.TrimPrefix]: the prefix is removed once, when it is there. *)
Definition strings_TrimPrefix (s pre : string) : string :=
  if String.prefix pre s
  then String.substring (String.length pre) (String.length s - String.length pre) s
  else s.

(** [slices.Contains] of [k8s.io/utils/strings/slices]. *)
Fixpoint slices_Contains (s : list string) (v : string) : bool :=
  match s with
  | [] => false
  | x :: rest => if String.eqb x v then true else slices_Contains rest v
  end.

(** Whether [sub] occurs somewhere in [s]. *)
Definition occurs_in (sub s : string) : Prop :=
  exists before after, s = before +:+ sub +:+ after.

(** ** Outcomes, and the log of calls to collaborators *)

Inductive outcome (A : Type) : Type :=
| Returned (a : A)
| Panicked (why : string).
Arguments Returned {A} a.
Arguments Panicked {A} why.

Section Monad.
Context {Ev : Type}.

(** A computation yields its outcome and the calls it made, in order. *)
Definition M (A : Type) : Type := (outcome A * list Ev)%type.

Definition ret {A} (a : A) : M A := (Returned a, []).

Definition bind {A B} (m : M A) (k : A -> M B) : M B :=
  match m with
  | (Returned a, calls) => let '(b, calls') := k a in (b, calls ++ calls')
  | (Panicked why, calls) => (Panicked why, calls)
  end.

Definition call (e : Ev) : M unit := (Returned tt, [e]).

Definition panic {A} (why : string) : M A := (Panicked why, []).

(** Indexing a slice, [s[i]], panics out of range. *)
Definition index {A} (s : list A) (i : Z) : M A :=
  if (i <? 0) then panic "index out of range"
  else match s !! Z.to_nat i with
       | Some x => ret x
       | None => panic "index out of range"
       end.

(** Dereferencing a pointer that may be nil. *)
Definition deref {A} (p : option A) : M A :=
  match p with
  | Some x => ret x
  | None => panic "nil pointer dereference"
  end.
End Monad.
Arguments M : clear implicits.

Notation "x <- m ;; k" := (bind m (fun x => k))
  (at level 100, m at next level, right associativity).
Notation "m ;;; k" := (bind m (fun _ => k))
  (at level 100, right associativity).

(** [len] of a slice; a nil slice ([None] where the distinction is kept) has
    length 0. *)
Definition len {A} (s : list A) : Z := Z.of_nat (length s).

Definition items {A} (s : option (list A)) : list A := default [] s.

(** ** The data model *)

(** [net/url]: the fields of [url.URL] that the code reads. *)
Record URL : Type := { Scheme : string; Host : string; Path : string }.

(** [net/http]: a request as [http.NewRequestWithContext] makes it, and the
    status code of a response. *)
Record Request : Type :=
  { Method : string; Request_URL : URL; Header : list (string * string) }.

Record Response : Type := { StatusCode : Z }.

Definition MethodGet : string := "GET".
Definition StatusOK : Z := 200.
Definition StatusNotFound : Z := 404.

(** Modelled from the spec: package [api/v1beta1] of the operator is declared
    outside the sources at hand. Its types are given the fields that the code
    reads and that the data model of the specification names; the status
    types of the access check are enumerations of the constants that the code
    uses, with one more value for the zero value. *)
Module api.

Definition SPIAccessTokenPhase : Type := string.

(** Modelled from the spec: the constant is declared outside the sources at
    hand; the specification names the phase [Ready]. *)
Definition SPIAccessTokenPhaseReady : SPIAccessTokenPhase := "Ready".

Record TokenMetadata : Type :=
  { Metadata_Username : string; Metadata_UserId : string; Metadata_Scopes : list string }.

Record SPIAccessToken : Type :=
  { Token_Name : string;
    Token_Namespace : string;
    Status_Phase : SPIAccessTokenPhase;
    Status_TokenMetadata : option TokenMetadata }.

(** [api.Token]: the token data kept in token storage. *)
Record Token : Type := { Username : string; AccessToken : string }.

Definition PermissionType : Type := string.
Definition PermissionArea : Type := string.

(** Modelled from the spec: the constants of the areas are declared outside
    the sources at hand; the specification's property on scope validation
    names the areas repository, repository-metadata, registry and user. *)
Definition PermissionAreaRepository : PermissionArea := "repository".
Definition PermissionAreaRepositoryMetadata : PermissionArea := "repository-metadata".
Definition PermissionAreaRegistry : PermissionArea := "registry".
Definition PermissionAreaUser : PermissionArea := "user".

Record Permission : Type := { Type_ : PermissionType; Area : PermissionArea }.

Record Permissions : Type :=
  { Required : list Permission; AdditionalScopes : list string }.

(** The label keys that the listings select on; their values are constants
    of the object-store schema. *)
Inductive Label : Type :=
  | ServiceProviderTypeLabel
  | ServiceProviderHostLabel
  | RSServiceProviderHostLabel.

Inductive SPIAccessCheckAccessibility : Type :=
  | SPIAccessCheckAccessibilityPublic
  | SPIAccessCheckAccessibilityPrivate
  | SPIAccessCheckAccessibilityUnknown.

Inductive SPIAccessCheckErrorReason : Type :=
  | SPIAccessCheckErrorNone
  | SPIAccessCheckErrorBadURL
  | SPIAccessCheckErrorTokenLookupFailed
  | SPIAccessCheckErrorRepoNotFound
  | SPIAccessCheckErrorUnknownError.

Inductive SPIRepoType : Type := SPIRepoTypeNone | SPIRepoTypeGit.

Inductive ServiceProviderType : Type :=
  | ServiceProviderTypeNone
  | ServiceProviderTypeGitLab.

Record SPIAccessCheckStatus : Type :=
  { Accessible : bool;
    Accessibility : SPIAccessCheckAccessibility;
    Type_Repo : SPIRepoType;
    ServiceProvider : ServiceProviderType;
    ErrorReason : SPIAccessCheckErrorReason;
    ErrorMessage : string }.

Record SPIAccessCheck : Type :=
  { Check_Namespace : string;
    Spec_RepoUrl : string;
    Spec_Permissions : Permissions }.

End api.

(** [remote-secret/api/v1beta1]. *)
Module v1beta1.

Record TargetStatus : Type :=
  { ApiUrl : string; Namespace : string; SecretName : string; Error : string }.

Record RemoteSecret : Type :=
  { Name : string;
    Annotations : gmap string string;
    Status_Targets : list TargetStatus }.

End v1beta1.

(** [k8s.io/api/core/v1]. *)
Module v1.

Record Secret : Type := { Data : gmap string (list Byte.byte) }.

Definition BasicAuthUsernameKey : string := "username".
Definition BasicAuthPasswordKey : string := "password".

End v1.

(** Reading a Go map: the zero value when the key is absent. *)
Definition annotation (m : gmap string string) (key : string) : string :=
  default "" (m !! key).

Definition data (m : gmap string (list Byte.byte)) (key : string) : list Byte.byte :=
  default [] (m !! key).

(** The conversion [string(b)] of a byte slice. *)
Definition string_of_bytes (b : list Byte.byte) : string := string_of_list_byte b.

(** ** Package [serviceprovider]: [lookup.go] *)

Module serviceprovider.
Import api v1beta1 v1.

(** The interface [Matchable]: its three getters. *)
Record Matchable : Type :=
  { RepoUrl : string; ObjNamespace : string; Permissions_ : Permissions }.

Record Credentials : Type := { Cred_Username : string; Cred_Token : string }.

(** The calls that leave the lookup engine or the provider. *)
Inductive Call : Type :=
| CallListTokens (namespace : string) (labels : list (Label * string))
| CallEnsure (tkn : SPIAccessToken)
| CallTokenFilter (tkn : SPIAccessToken)
| CallTokenStorageGet (tkn : SPIAccessToken)
| CallListRemoteSecrets (namespace : string) (labels : list (Label * string))
| CallRemoteSecretFilter (rs : RemoteSecret)
| CallGetSecret (namespace name : string)
| CallHttpDo (req : Request)
| CallParseOwnerAndProject (url : string)
| CallCreateAuthenticatedClient (credentials : Credentials)
| CallGetProject (pid : string).

(** [client.Client], consumed as a list and get interface. *)
Record Client : Type :=
  { List_SPIAccessToken : string -> list (Label * string) -> error + list SPIAccessToken;
    List_RemoteSecret : string -> list (Label * string) -> error + list RemoteSecret;
    Get_Secret : string -> string -> error + Secret }.

(** The struct [GenericLookup]. A collaborator that takes a pointer to a
    token returns the token as the call leaves it. *)
Record GenericLookup : Type :=
  { ServiceProviderType_ : string;
    TokenFilter : Matchable -> SPIAccessToken -> bool * option error;
    TokenStorage : SPIAccessToken -> option Token * option error;
    RemoteSecretFilter : option (Matchable -> RemoteSecret -> bool);
    MetadataProvider : SPIAccessToken -> option TokenMetadata * option error;
    MetadataCache :
      (SPIAccessToken -> option TokenMetadata * option error) ->
      SPIAccessToken -> SPIAccessToken * option error;
    RepoUrlParser : string -> option URL * option error }.

Definition missingTargetError : error :=
  errors_New "found RemoteSecret does not have a target in the SPIAccessCheck's namespace, this should not happen".
Definition accessTokenNotFoundError : error :=
  errors_New "token data is not found in token storage".

Section RepoUrl.
(** [url.Parse] of the Go standard library: on success the URL is not nil. *)
Variable url_Parse : string -> error + URL.

Definition RepoUrlFromString (repoUrl : string) : option URL * option error :=
  match url_Parse repoUrl with
  | inl err => (None, Some (fmt_Errorf "invalid url: " err ""))
  | inr parsed => (Some parsed, None)
  end.

Definition RepoUrlFromSchemalessString (repoUrl : string) : option URL * option error :=
  let schemeIndex := strings_Index repoUrl "://" in
  let repoUrl := if schemeIndex =? -1 then "https://" +:+ repoUrl else repoUrl in
  RepoUrlFromString repoUrl.
End RepoUrl.

(** *** The concurrent part of [Lookup]

    [Lookup] starts one goroutine per ready candidate and waits for all of
    them. A goroutine works on its own copy of the token and touches the
    shared [result] and [errs] at most once, under the mutex; so a run is
    determined by the order in which the goroutines come to that point. The
    scheduler is a list of picks: each pick selects, among the goroutines
    still pending, the next one to complete. *)

Fixpoint completion_order {A} (sched : list nat) (pending : list A) : list A :=
  match sched with
  | [] => pending
  | n :: sched' =>
      let i := (n mod length pending)%nat in
      match pending !! i with
      | Some t => t :: completion_order sched' (delete i pending)
      | None => pending
      end
  end.

Section Lookup.
(** [commaseparated.Value(s).Values()] of the remote-secret module. *)
Variable commaseparated_Values : string -> list string.
(** The key of the repository-scope annotation of a remote secret. *)
Variable RSServiceProviderRepositoryAnnotation : string.

Variable l : GenericLookup.

(** The body of the goroutine, from the call of [Ensure] to its return;
    [shared] is the pair of [result] and [errs]. *)
Definition goroutine (matchable : Matchable) (tkn : SPIAccessToken)
    (shared : list SPIAccessToken * list error)
    : M Call (list SPIAccessToken * list error) :=
  let '(result, errs) := shared in
  call (CallEnsure tkn) ;;;
  let '(tkn, err) := MetadataCache l (MetadataProvider l) tkn in
  match err with
  | Some err => ret (result, errs ++ [err])
  | None =>
      call (CallTokenFilter tkn) ;;;
      let '(ok, err) := TokenFilter l matchable tkn in
      match err with
      | Some err => ret (result, errs ++ [err])
      | None => if ok then ret (result ++ [tkn], errs) else ret (result, errs)
      end
  end.

(** The loop over [potentialMatches.Items]: the candidates for which a
    goroutine is started. *)
Fixpoint spawned (potentialMatches : list SPIAccessToken) : list SPIAccessToken :=
  match potentialMatches with
  | [] => []
  | t :: rest =>
      if negb (String.eqb (Status_Phase t) SPIAccessTokenPhaseReady)
      then spawned rest
      else t :: spawned rest
  end.

(** The goroutines, in the order in which they complete, up to [wg.Wait]. *)
Fixpoint wait (matchable : Matchable) (tasks : list SPIAccessToken)
    (shared : list SPIAccessToken * list error)
    : M Call (list SPIAccessToken * list error) :=
  match tasks with
  | [] => ret shared
  | tkn :: rest =>
      shared <- goroutine matchable tkn shared ;;
      wait matchable rest shared
  end.

Definition Lookup (sched : list nat) (cl : Client) (matchable : Matchable)
    : M Call (option (list SPIAccessToken) * option error) :=
  let result : list SPIAccessToken := [] in
  let '(repoUrl, err) := RepoUrlParser l (RepoUrl matchable) in
  match err with
  | Some err =>
      ret (Some result,
           Some (fmt_Errorf ("error parsing the host from repo URL " +:+ RepoUrl matchable +:+ ": ") err ""))
  | None =>
      repoUrl <- deref repoUrl ;;
      let labels := [(ServiceProviderTypeLabel, ServiceProviderType_ l);
                     (ServiceProviderHostLabel, Host repoUrl)] in
      call (CallListTokens (ObjNamespace matchable) labels) ;;;
      match List_SPIAccessToken cl (ObjNamespace matchable) labels with
      | inl err =>
          ret (Some result, Some (fmt_Errorf "failed to list the potentially matching tokens: " err ""))
      | inr potentialMatches =>
          let errs : list error := [] in
          shared <- wait matchable (completion_order sched (spawned potentialMatches)) (result, errs) ;;
          let '(result, errs) := shared in
          if len errs >? 0
          then ret (None,
                    Some (match NewAggregate errs with
                          | Some agg => fmt_Errorf "errors while examining the potential matches: " agg ""
                          | None => errors_New "errors while examining the potential matches: %!w(<nil>)"
                          end))
          else ret (Some result, None)
      end
  end.

Definition PersistMetadata (token : SPIAccessToken) : M Call (SPIAccessToken * option error) :=
  call (CallEnsure token) ;;;
  ret (MetadataCache l (MetadataProvider l) token).

(** The loop of [lookupRemoteSecrets] over [potentialMatches.Items]. *)
Fixpoint filterRemoteSecrets (matchable : Matchable) (potentialMatches : list RemoteSecret)
    (matches : list RemoteSecret) : M Call (list RemoteSecret) :=
  match potentialMatches with
  | [] => ret matches
  | rs :: rest =>
      match RemoteSecretFilter l with
      | None => filterRemoteSecrets matchable rest (matches ++ [rs])
      | Some filter =>
          call (CallRemoteSecretFilter rs) ;;;
          if filter matchable rs
          then filterRemoteSecrets matchable rest (matches ++ [rs])
          else filterRemoteSecrets matchable rest matches
      end
  end.

Definition lookupRemoteSecrets (cl : Client) (matchable : Matchable)
    : M Call (option (list RemoteSecret) * option error) :=
  let '(repoUrl, err) := RepoUrlParser l (RepoUrl matchable) in
  match err with
  | Some err =>
      ret (None, Some (fmt_Errorf ("error parsing the repo URL " +:+ RepoUrl matchable +:+ ": ") err ""))
  | None =>
      repoUrl <- deref repoUrl ;;
      let labels := [(RSServiceProviderHostLabel, Host repoUrl)] in
      call (CallListRemoteSecrets (ObjNamespace matchable) labels) ;;;
      match List_RemoteSecret cl (ObjNamespace matchable) labels with
      | inl err =>
          ret (None, Some (fmt_Errorf "failed to list the potentially matching remote secrets: " err ""))
      | inr potentialMatches =>
          matches <- filterRemoteSecrets matchable potentialMatches [] ;;
          ret (Some matches, None)
      end
  end.

(** [getLocalNamespaceTargetIndex], with the loop index [i] made explicit. *)
Fixpoint getLocalNamespaceTargetIndex_from (i : Z) (targets : list TargetStatus)
    (namespace : string) : Z :=
  match targets with
  | [] => -1
  | target :: rest =>
      if String.eqb (ApiUrl target) "" && String.eqb (Error target) ""
         && String.eqb (Namespace target) namespace
      then i
      else getLocalNamespaceTargetIndex_from (i + 1) rest namespace
  end.

Definition getLocalNamespaceTargetIndex (targets : list TargetStatus) (namespace : string) : Z :=
  getLocalNamespaceTargetIndex_from 0 targets namespace.

(** The loop of [lookupRemoteSecretSecret] that looks for a remote secret
    scoped to the repository; [matchingRemoteSecret] is kept when the loop
    ends without a [break]. *)
Fixpoint scopedRemoteSecret (remoteSecrets : list RemoteSecret) (repoUrl : URL)
    (matchingRemoteSecret : RemoteSecret) : RemoteSecret :=
  match remoteSecrets with
  | [] => matchingRemoteSecret
  | rs :: rest =>
      let accessibleRepositories := annotation (Annotations rs) RSServiceProviderRepositoryAnnotation in
      if slices_Contains (commaseparated_Values accessibleRepositories)
                         (strings_TrimPrefix (Path repoUrl) "/")
      then rs
      else scopedRemoteSecret rest repoUrl matchingRemoteSecret
  end.

Definition lookupRemoteSecretSecret (cl : Client) (matchable : Matchable)
    (remoteSecrets : list RemoteSecret) : M Call (option Secret * option error) :=
  if len remoteSecrets =? 0 then ret (None, None)
  else
    let '(repoUrl, err) := RepoUrlParser l (RepoUrl matchable) in
    match err with
    | Some err =>
        ret (None, Some (fmt_Errorf ("error parsing the repo URL " +:+ RepoUrl matchable +:+ ": ") err ""))
    | None =>
        matchingRemoteSecret <- index remoteSecrets 0 ;;
        repoUrl <- deref repoUrl ;;
        let matchingRemoteSecret := scopedRemoteSecret remoteSecrets repoUrl matchingRemoteSecret in
        let targetIndex :=
          getLocalNamespaceTargetIndex (Status_Targets matchingRemoteSecret) (ObjNamespace matchable) in
        if (targetIndex <? 0) || (targetIndex >=? len (Status_Targets matchingRemoteSecret))
        then ret (None, Some missingTargetError)
        else
          target <- index (Status_Targets matchingRemoteSecret) targetIndex ;;
          call (CallGetSecret (ObjNamespace matchable) (SecretName target)) ;;;
          match Get_Secret cl (ObjNamespace matchable) (SecretName target) with
          | inl err =>
              ret (None, Some (fmt_Errorf "unable to find Secret created by RemoteSecret: " err ""))
          | inr secret => ret (Some secret, None)
          end
    end.

Definition LookupCredentials (sched : list nat) (cl : Client) (matchable : Matchable)
    : M Call (option Credentials * option error) :=
  r <- Lookup sched cl matchable ;;
  let '(tokens, err) := r in
  match err with
  | Some err => ret (None, Some err)
  | None =>
      if len (items tokens) >? 0
      then
        tkn <- index (items tokens) 0 ;;
        call (CallTokenStorageGet tkn) ;;;
        let '(tokenData, err) := TokenStorage l tkn in
        match err with
        | Some err => ret (None, Some (fmt_Errorf "failed to get token data: " err ""))
        | None =>
            match tokenData with
            | None => ret (None, Some accessTokenNotFoundError)
            | Some tokenData =>
                ret (Some {| Cred_Username := Username tokenData;
                             Cred_Token := AccessToken tokenData |}, None)
            end
        end
      else
        r <- lookupRemoteSecrets cl matchable ;;
        let '(remoteSecrets, err) := r in
        match err with
        | Some err => ret (None, Some err)
        | None =>
            r <- lookupRemoteSecretSecret cl matchable (items remoteSecrets) ;;
            let '(secret, err) := r in
            match err with
            | Some err => ret (None, Some err)
            | None =>
                match secret with
                | None => ret (None, None)
                | Some secret =>
                    ret (Some {| Cred_Username := string_of_bytes (data (Data secret) BasicAuthUsernameKey);
                                 Cred_Token := string_of_bytes (data (Data secret) BasicAuthPasswordKey) |},
                         None)
                end
            end
        end
  end.
End Lookup.

End serviceprovider.

(** ** Package [gitlab]: the GitLab service provider *)

Module gitlab.
Import api serviceprovider.

Definition unsupportedScopeError : error := errors_New "unsupported scope for GitLab".
Definition unsupportedAreaError : error := errors_New "unsupported permission area for GitLab".
Definition unsupportedUserWritePermissionError : error :=
  errors_New "user write permission is not supported by GitLab".
Definition unexpectedStatusCodeError : error := errors_New "unexpected status code from GitLab API".

(** [github.com/xanzy/go-gitlab]. *)
Definition PrivateVisibility : string := "private".
Definition InternalVisibility : string := "internal".

Record Project : Type := { Visibility : string }.

Record GitlabClient : Type :=
  { Projects_GetProject : string -> option Project * option Response * option error }.

(** The fields of the struct [Gitlab] that the access check and the
    validation use. *)
Record Gitlab : Type :=
  { lookup : GenericLookup;
    httpClient : Request -> option Response * option error;
    glClientBuilder : Credentials -> option GitlabClient * option error;
    repoUrlMatcher : string -> string * string * option error }.

Record ValidationResult : Type := { ScopeValidation : list error }.

(** [SPIAccessCheck] as a [Matchable]. *)
Definition Matchable_of_SPIAccessCheck (accessCheck : SPIAccessCheck) : Matchable :=
  {| RepoUrl := Spec_RepoUrl accessCheck;
     ObjNamespace := Check_Namespace accessCheck;
     Permissions_ := Spec_Permissions accessCheck |}.

Section Provider.
Variable url_Parse : string -> error + URL.
Variable commaseparated_Values : string -> list string.
Variable RSServiceProviderRepositoryAnnotation : string.
(** [PermissionType.IsWrite], [IsValidScope] and the constants of type
    [Scope], declared in files of the operator outside the sources at hand. *)
Variable IsWrite : PermissionType -> bool.
Variable IsValidScope : string -> bool.
Variables ScopeReadUser ScopeReadRepository ScopeWriteRepository : string.
Variables ScopeReadRegistry ScopeWriteRegistry : string.
(** The method [Error()] of the interface [error]. *)
Variable Error_ : error -> string.

(** [http.NewRequestWithContext] without a body: the URL has to parse; the
    request carries the method and an empty header. *)
Definition http_NewRequestWithContext (method url : string) : option Request * option error :=
  match url_Parse url with
  | inl err => (None, Some err)
  | inr u => (Some {| Method := method; Request_URL := u; Header := [] |}, None)
  end.

Definition translateToGitlabScopes (permission : Permission) : list string :=
  if String.eqb (Area permission) PermissionAreaRepository
     || String.eqb (Area permission) PermissionAreaRepositoryMetadata
  then (if IsWrite (Type_ permission) then [ScopeWriteRepository] else [ScopeReadRepository])
  else if String.eqb (Area permission) PermissionAreaRegistry
  then (if IsWrite (Type_ permission) then [ScopeWriteRegistry] else [ScopeReadRegistry])
  else if String.eqb (Area permission) PermissionAreaUser
  then [ScopeReadUser]
  else [].

Variable g : Gitlab.

Definition checkPublicRepoAccess (accessCheck : SPIAccessCheck) : M Call (bool * option error) :=
  let '(req, err) := http_NewRequestWithContext MethodGet (Spec_RepoUrl accessCheck) in
  match err with
  | Some err =>
      ret (false,
           Some (fmt_Errorf ("error while constructing HTTP request for access check to "
                             +:+ Spec_RepoUrl accessCheck +:+ ": ") err ""))
  | None =>
      req <- deref req ;;
      call (CallHttpDo req) ;;;
      let '(resp, err) := httpClient g req in
      match err with
      | Some err =>
          ret (false,
               Some (fmt_Errorf ("error performing HTTP request for access check to "
                                 +:+ Spec_RepoUrl accessCheck +:+ ": ") err ""))
      | None =>
          resp <- deref resp ;;
          if StatusCode resp =? StatusOK then ret (true, None)
          else ret (false, None)
      end
  end.

(** The closure [preserveError] of [checkPrivateRepoAccess]. *)
Definition preserveError (status : SPIAccessCheckStatus)
    (errReason : SPIAccessCheckErrorReason) (err : error)
    : option SPIAccessCheckStatus * option error :=
  (Some {| Accessible := Accessible status;
           Accessibility := Accessibility status;
           Type_Repo := Type_Repo status;
           ServiceProvider := ServiceProvider status;
           ErrorReason := errReason;
           ErrorMessage := Error_ err |}, None).

(** The end of [checkPrivateRepoAccess], once the project has been read. *)
Definition accessibleStatus (project : option Project)
    : M Call (option SPIAccessCheckStatus * option error) :=
  project <- deref project ;;
  ret (Some {| Accessible := true;
               Accessibility :=
                 if String.eqb (Visibility project) PrivateVisibility
                    || String.eqb (Visibility project) InternalVisibility
                 then SPIAccessCheckAccessibilityPrivate
                 else SPIAccessCheckAccessibilityUnknown;
               Type_Repo := SPIRepoTypeGit;
               ServiceProvider := ServiceProviderTypeGitLab;
               ErrorReason := SPIAccessCheckErrorNone;
               ErrorMessage := "" |}, None).

Definition checkPrivateRepoAccess (sched : list nat) (cl : Client) (accessCheck : SPIAccessCheck)
    : M Call (option SPIAccessCheckStatus * option error) :=
  let status := {| Accessible := false;
                   Accessibility := SPIAccessCheckAccessibilityUnknown;
                   Type_Repo := SPIRepoTypeGit;
                   ServiceProvider := ServiceProviderTypeGitLab;
                   ErrorReason := SPIAccessCheckErrorNone;
                   ErrorMessage := "" |} in
  call (CallParseOwnerAndProject (Spec_RepoUrl accessCheck)) ;;;
  let '(owner, name, err) := repoUrlMatcher g (Spec_RepoUrl accessCheck) in
  match err with
  | Some err => ret (preserveError status SPIAccessCheckErrorBadURL err)
  | None =>
      r <- LookupCredentials commaseparated_Values RSServiceProviderRepositoryAnnotation
             (lookup g) sched cl (Matchable_of_SPIAccessCheck accessCheck) ;;
      let '(credentials, err) := r in
      match err with
      | Some err => ret (preserveError status SPIAccessCheckErrorTokenLookupFailed err)
      | None =>
          match credentials with
          | None => ret (Some status, None)
          | Some credentials =>
              call (CallCreateAuthenticatedClient credentials) ;;;
              let '(gitlabClient, err) := glClientBuilder g credentials in
              match err with
              | Some err => ret (preserveError status SPIAccessCheckErrorUnknownError err)
              | None =>
                  gitlabClient <- deref gitlabClient ;;
                  call (CallGetProject (owner +:+ "/" +:+ name)) ;;;
                  let '(project, response, err) :=
                    Projects_GetProject gitlabClient (owner +:+ "/" +:+ name) in
                  match err with
                  | Some err =>
                      match response with
                      | Some response =>
                          if StatusCode response =? StatusNotFound
                          then ret (preserveError status SPIAccessCheckErrorRepoNotFound err)
                          else ret (preserveError status SPIAccessCheckErrorUnknownError err)
                      | None => ret (preserveError status SPIAccessCheckErrorUnknownError err)
                      end
                  | None =>
                      match response with
                      | Some response =>
                          if negb (StatusCode response =? StatusOK)
                          then ret (preserveError status SPIAccessCheckErrorUnknownError
                                      (fmt_Errorf "" unexpectedStatusCodeError
                                         (": " +:+ pretty (StatusCode response))))
                          else accessibleStatus project
                      | None => accessibleStatus project
                      end
                  end
              end
          end
      end
  end.

Definition CheckRepositoryAccess (sched : list nat) (cl : Client) (accessCheck : SPIAccessCheck)
    : M Call (option SPIAccessCheckStatus * option error) :=
  r <- checkPublicRepoAccess accessCheck ;;
  let '(publicRepo, err) := r in
  match err with
  | Some err => ret (None, Some err)
  | None =>
      if publicRepo
      then ret (Some {| Accessible := publicRepo;
                        Accessibility := SPIAccessCheckAccessibilityPublic;
                        Type_Repo := SPIRepoTypeGit;
                        ServiceProvider := ServiceProviderTypeGitLab;
                        ErrorReason := SPIAccessCheckErrorNone;
                        ErrorMessage := "" |}, None)
      else checkPrivateRepoAccess sched cl accessCheck
  end.

(** The first loop of [Validate], over the required permissions. *)
Fixpoint validateRequired (required : list Permission) (ret_ : list error) : list error :=
  match required with
  | [] => ret_
  | p :: rest =>
      if String.eqb (Area p) PermissionAreaRepository
         || String.eqb (Area p) PermissionAreaRepositoryMetadata
         || String.eqb (Area p) PermissionAreaRegistry
      then validateRequired rest ret_
      else if String.eqb (Area p) PermissionAreaUser
      then (if IsWrite (Type_ p)
            then validateRequired rest (ret_ ++ [unsupportedUserWritePermissionError])
            else validateRequired rest ret_)
      else validateRequired rest
             (ret_ ++ [fmt_Errorf "" unsupportedAreaError (": '" +:+ Area p +:+ "'")])
  end.

(** The second loop of [Validate], over the additional scopes. *)
Fixpoint validateAdditionalScopes (scopes : list string) (ret_ : list error) : list error :=
  match scopes with
  | [] => ret_
  | s :: rest =>
      if negb (IsValidScope s)
      then validateAdditionalScopes rest
             (ret_ ++ [fmt_Errorf "" unsupportedScopeError (": '" +:+ s +:+ "'")])
      else validateAdditionalScopes rest ret_
  end.

Definition Validate (validated : Permissions) : ValidationResult * option error :=
  let ret_ := [] in
  let ret_ := validateRequired (Required validated) ret_ in
  let ret_ := validateAdditionalScopes (AdditionalScopes validated) ret_ in
  ({| ScopeValidation := ret_ |}, None).
End Provider.

(** *** The methods of [Gitlab] that delegate to the lookup engine *)

Definition probeNotImplementedError : error := errors_New "gitLab probe not implemented".

Section Methods.
Variable commaseparated_Values : string -> list string.
Variable RSServiceProviderRepositoryAnnotation : string.
Variable IsWrite : PermissionType -> bool.
Variables ScopeReadUser ScopeReadRepository ScopeWriteRepository : string.
Variables ScopeReadRegistry ScopeWriteRegistry : string.
(** [serviceprovider.GetAllScopes], declared in a file of the operator
    outside the sources at hand. *)
Variable GetAllScopes : (Permission -> list string) -> Permissions -> list string.
Variable g : Gitlab.

(** [Gitlab.LookupTokens]; the binding is passed as the [Matchable] it is. *)
Definition Gitlab_LookupTokens (sched : list nat) (cl : Client) (binding : Matchable)
    : M Call (option (list SPIAccessToken) * option error) :=
  r <- Lookup (lookup g) sched cl binding ;;
  let '(tokens, err) := r in
  match err with
  | Some err => ret (None, Some (fmt_Errorf "gitlab token lookup failure: " err ""))
  | None => ret (tokens, None)
  end.

(** [Gitlab.LookupCredentials]. *)
Definition Gitlab_LookupCredentials (sched : list nat) (cl : Client) (matchable : Matchable)
    : M Call (option Credentials * option error) :=
  r <- LookupCredentials commaseparated_Values RSServiceProviderRepositoryAnnotation
         (lookup g) sched cl matchable ;;
  let '(credentials, err) := r in
  match err with
  | Some err => ret (None, Some (fmt_Errorf "gitlab credentials lookup failure: " err ""))
  | None => ret (credentials, None)
  end.

(** [Gitlab.PersistMetadata]; the token is returned as the call leaves it. *)
Definition Gitlab_PersistMetadata (token : SPIAccessToken) : M Call (SPIAccessToken * option error) :=
  r <- PersistMetadata (lookup g) token ;;
  let '(token, err) := r in
  match err with
  | Some err => ret (token, Some (fmt_Errorf "failed to persist gitlab metadata: " err ""))
  | None => ret (token, None)
  end.

(** [gitlabOAuthCapability.OAuthScopesFor]. *)
Definition OAuthScopesFor (permissions : Permissions) : list string :=
  let scopes :=
    GetAllScopes (translateToGitlabScopes IsWrite ScopeReadUser ScopeReadRepository
                    ScopeWriteRepository ScopeReadRegistry ScopeWriteRegistry) permissions in
  if negb (slices_Contains scopes ScopeReadUser)
  then scopes ++ [ScopeReadUser]
  else scopes.

(** [gitlabProbe.Examine]. *)
Definition Examine (url : string) : string * option error :=
  ("", Some probeNotImplementedError).
End Methods.

End gitlab.

(** ** Package [gitfile]: [gitfile.go] *)

Module gitfile.
Import v1 serviceprovider.

Definition secretDataEmptyError : error :=
  errors_New "error reading the secret: data is empty".

(** [net/http]: the response as this package reads it; its body is what the
    caller of [GetFileContents] receives. *)
Record FileResponse : Type := { File_StatusCode : Z; File_Body : list Byte.byte }.

(** The calls that leave the package. *)
Inductive FileCall : Type :=
| FileGetSecret (namespace name : string)
| FileDetect (repoUrl filepath ref : string) (authHeaders : gmap string string)
| FileDo (req : Request).

Section GitFile.
Variable url_Parse : string -> error + URL.
(** [textproto.CanonicalMIMEHeaderKey], which [http.Header.Add] applies to
    the key. *)
Variable CanonicalMIMEHeaderKey : string -> string.
(** [detect], declared in a file of the package outside the sources at hand. *)
Variable detect : string -> string -> string -> gmap string string -> string * option error.
(** [http.Client.Do]. *)
Variable Do : Request -> option FileResponse * option error.

Definition buildAuthHeader (k8sClient : Client) (namespace secretName : string)
    : M FileCall (option (gmap string string) * option error) :=
  call (FileGetSecret namespace secretName) ;;;
  match Get_Secret k8sClient namespace secretName with
  | inl err => ret (None, Some (fmt_Errorf "failed to read the token secret: " err ""))
  | inr tokenSecret =>
      if Z.of_nat (size (Data tokenSecret)) >? 0
      then ret (Some {[ "Authorization" :=
                          "Bearer " +:+ string_of_bytes (data (Data tokenSecret) "password") ]},
                None)
      else ret (None, Some secretDataEmptyError)
  end.

(** The loop of [GetFileContents] over the headers: [req.Header.Add]
    dereferences the request. The order in which Go ranges over a map is not
    fixed; here it is that of the list of the map. *)
Fixpoint addHeaders (authHeaders : list (string * string)) (req : option Request)
    : M FileCall (option Request) :=
  match authHeaders with
  | [] => ret req
  | (k, v) :: rest =>
      r <- deref req ;;
      addHeaders rest
        (Some {| Method := Method r; Request_URL := Request_URL r;
                 Header := Header r ++ [(CanonicalMIMEHeaderKey k, v)] |})
  end.

Definition GetFileContents (k8sClient : Client)
    (namespace secret repoUrl filepath ref : string)
    : M FileCall (option (list Byte.byte) * option error) :=
  r <- buildAuthHeader k8sClient namespace secret ;;
  let '(authHeaders, err) := r in
  match err with
  | Some err => ret (None, Some err)
  | None =>
      let authHeaders := default ∅ authHeaders in
      call (FileDetect repoUrl filepath ref authHeaders) ;;;
      let '(fileUrl, err) := detect repoUrl filepath ref authHeaders in
      match err with
      | Some err => ret (None, Some (fmt_Errorf "error detecting file download URL: " err ""))
      | None =>
          let '(req, _) := gitlab.http_NewRequestWithContext url_Parse "GET" fileUrl in
          req <- addHeaders (map_to_list authHeaders) req ;;
          req <- deref req ;;
          call (FileDo req) ;;;
          let '(response, err) := Do req in
          match err with
          | Some err => ret (None, Some (fmt_Errorf "error reading file content: " err ""))
          | None =>
              response <- deref response ;;
              ret (Some (File_Body response), None)
          end
      end
  end.
End GitFile.

End gitfile.

(** ** Notions in which the properties are stated *)

Module notions.
Import api v1beta1 v1 serviceprovider gitlab.

(** The phase test of the loop of [Lookup]. *)
Definition ready (t : SPIAccessToken) : bool :=
  String.eqb (Status_Phase t) SPIAccessTokenPhaseReady.

(** The error that the evaluation of a candidate ends with, if it fails:
    that of [Ensure], or else that of the token filter. *)
Definition candidate_error (l : GenericLookup) (matchable : Matchable)
    (tkn : SPIAccessToken) : option error :=
  match MetadataCache l (MetadataProvider l) tkn with
  | (_, Some err) => Some err
  | (tkn', None) => snd (TokenFilter l matchable tkn')
  end.

(** The token that the evaluation of a candidate adds to the result: the
    token as [Ensure] left it, when the filter accepts it. *)
Definition candidate_match (l : GenericLookup) (matchable : Matchable)
    (tkn : SPIAccessToken) : option SPIAccessToken :=
  match MetadataCache l (MetadataProvider l) tkn with
  | (_, Some _) => None
  | (tkn', None) =>
      match TokenFilter l matchable tkn' with
      | (true, None) => Some tkn'
      | _ => None
      end
  end.

(** Whether the evaluation of a candidate fails. *)
Definition fails (l : GenericLookup) (matchable : Matchable) (tkn : SPIAccessToken) : bool :=
  match candidate_error l matchable tkn with
  | Some _ => true
  | None => false
  end.

(** The calls that the evaluation of a candidate makes. *)
Definition candidate_calls (l : GenericLookup) (tkn : SPIAccessToken) : list Call :=
  match MetadataCache l (MetadataProvider l) tkn with
  | (_, Some _) => [CallEnsure tkn]
  | (tkn', None) => [CallEnsure tkn; CallTokenFilter tkn']
  end.

(** An object store that lists the ready tokens only. *)
Definition only_ready (cl : Client) : Client :=
  {| List_SPIAccessToken := fun namespace labels =>
       match List_SPIAccessToken cl namespace labels with
       | inl err => inl err
       | inr tokens => inr (List.filter ready tokens)
       end;
     List_RemoteSecret := List_RemoteSecret cl;
     Get_Secret := Get_Secret cl |}.

(** The calls by which remote secrets are consulted. *)
Definition remote_secret_call (c : Call) : bool :=
  match c with
  | CallListRemoteSecrets _ _ | CallRemoteSecretFilter _ | CallGetSecret _ _ => true
  | _ => false
  end.

(** A target in the local cluster, in [namespace], that was delivered. *)
Definition local_target (namespace : string) (target : TargetStatus) : Prop :=
  ApiUrl target = "" /\ Error target = "" /\ Namespace target = namespace.

(** The repository-scope annotation of [rs] lists the path of [repoUrl]. *)
Definition scoped_to (Values : string -> list string) (key : string)
    (repoUrl : URL) (rs : RemoteSecret) : Prop :=
  In (strings_TrimPrefix (Path repoUrl) "/") (Values (annotation (Annotations rs) key)).

(** The areas of the table of the GitLab provider: repository,
    repository-metadata, registry and user. *)
Definition supported_area (area : PermissionArea) : bool :=
  String.eqb area PermissionAreaRepository
  || String.eqb area PermissionAreaRepositoryMetadata
  || String.eqb area PermissionAreaRegistry
  || String.eqb area PermissionAreaUser.

(** A write permission on the user area. *)
Definition user_write (IsWrite : PermissionType -> bool) (p : Permission) : bool :=
  String.eqb (Area p) PermissionAreaUser && IsWrite (Type_ p).

(** The required permissions that the validation objects to, and the error
    that answers each of them. *)
Definition refused (IsWrite : PermissionType -> bool) (p : Permission) : bool :=
  negb (supported_area (Area p)) || user_write IsWrite p.

Definition answers (IsWrite : PermissionType -> bool) (p : Permission) (e : error) : Prop :=
  (supported_area (Area p) = false
   /\ e = fmt_Errorf "" unsupportedAreaError (": '" +:+ Area p +:+ "'"))
  \/ (user_write IsWrite p = true /\ e = unsupportedUserWritePermissionError).

(** Whether the remote-secret filter of the lookup, when there is one,
    accepts a remote secret. *)
Definition accepted (l : GenericLookup) (matchable : Matchable) (rs : RemoteSecret) : bool :=
  match RemoteSecretFilter l with
  | None => true
  | Some filter => filter matchable rs
  end.

(** The calls that the lookup engine makes: to the object store, the metadata
    cache, the token filter, token storage and the remote-secret filter. *)
Definition lookup_call (c : Call) : bool :=
  match c with
  | CallListTokens _ _ | CallEnsure _ | CallTokenFilter _ | CallTokenStorageGet _
  | CallListRemoteSecrets _ _ | CallRemoteSecretFilter _ | CallGetSecret _ _ => true
  | _ => false
  end.

End notions.

(** ** Collaborators on which the model can be run *)

Module sample.
Import api v1beta1 v1 serviceprovider gitlab notions.

(** A stand-in for [url.Parse], for URLs of the shape [scheme://host/path]:
    a string with a blank is refused, a string without [://] is a path. *)
Definition url_Parse (s : string) : error + URL :=
  match String.index 0 " " s with
  | Some _ => inl (foreign "invalid character in URL")
  | None =>
      match String.index 0 "://" s with
      | None => inr {| Scheme := ""; Host := ""; Path := s |}
      | Some i =>
          let rest := String.substring (i + 3) (String.length s - (i + 3)) s in
          match String.index 0 "/" rest with
          | None => inr {| Scheme := String.substring 0 i s; Host := rest; Path := "" |}
          | Some j =>
              inr {| Scheme := String.substring 0 i s;
                     Host := String.substring 0 j rest;
                     Path := String.substring j (String.length rest - j) rest |}
          end
      end
  end.

(** A stand-in for [commaseparated.Value.Values]: the pieces between the
    commas. *)
Fixpoint split_commas (s : string) (piece : string) : list string :=
  match s with
  | EmptyString => [piece]
  | String c rest =>
      if Ascii.eqb c ","
      then piece :: split_commas rest ""
      else split_commas rest (piece +:+ String c "")
  end.

Definition Values (s : string) : list string := split_commas s "".

Definition RepositoryAnnotation : string := "appstudio.redhat.com/sp.repository".

Definition token (name phase : string) : SPIAccessToken :=
  {| Token_Name := name; Token_Namespace := "ns";
     Status_Phase := phase; Status_TokenMetadata := None |}.

Definition alice : SPIAccessToken := token "alice" "Ready".
Definition bob : SPIAccessToken := token "bob" "AwaitingTokenData".
Definition carol : SPIAccessToken := token "carol" "Ready".
Definition dave : SPIAccessToken := token "dave" "Ready".
Definition erin : SPIAccessToken := token "erin" "Ready".

Definition metadata (name : string) : TokenMetadata :=
  {| Metadata_Username := name; Metadata_UserId := "1"; Metadata_Scopes := ["api"] |}.

(** A lookup engine: metadata cannot be fetched for carol, the filter fails
    on dave and accepts alice, bob and erin; token storage holds data for
    alice only. The cache fetches the metadata and stores it in the token. *)
Definition lookup : GenericLookup :=
  {| ServiceProviderType_ := "GitLab";
     TokenFilter := fun _ t =>
       if String.eqb (Token_Name t) "dave" then (false, Some (foreign "filter failed"))
       else (String.eqb (Token_Name t) "alice" || String.eqb (Token_Name t) "bob"
             || String.eqb (Token_Name t) "erin", None);
     TokenStorage := fun t =>
       if String.eqb (Token_Name t) "alice"
       then (Some {| Username := "alice"; AccessToken := "glpat-1" |}, None)
       else (None, None);
     RemoteSecretFilter := None;
     MetadataProvider := fun t =>
       if String.eqb (Token_Name t) "carol" then (None, Some (foreign "metadata fetch failed"))
       else (Some (metadata (Token_Name t)), None);
     MetadataCache := fun provider t =>
       match provider t with
       | (_, Some err) => (t, Some err)
       | (md, None) =>
           ({| Token_Name := Token_Name t; Token_Namespace := Token_Namespace t;
               Status_Phase := Status_Phase t; Status_TokenMetadata := md |}, None)
       end;
     RepoUrlParser := RepoUrlFromSchemalessString url_Parse |}.

(** An object store with the given tokens, remote secrets and secrets. *)
Definition client (tokens : list SPIAccessToken) (remoteSecrets : list RemoteSecret)
    (secrets : gmap string Secret) : Client :=
  {| List_SPIAccessToken := fun _ _ => inr tokens;
     List_RemoteSecret := fun _ _ => inr remoteSecrets;
     Get_Secret := fun _ name =>
       match secrets !! name with
       | Some secret => inr secret
       | None => inl (foreign "secret not found")
       end |}.

Definition request : Matchable :=
  {| RepoUrl := "gitlab.com/org/repo"; ObjNamespace := "ns";
     Permissions_ := {| Required := []; AdditionalScopes := [] |} |}.

Definition local (secretName : string) : TargetStatus :=
  {| ApiUrl := ""; Namespace := "ns"; SecretName := secretName; Error := "" |}.

Definition remote (secretName : string) : TargetStatus :=
  {| ApiUrl := "https://api.other-cluster"; Namespace := "ns";
     SecretName := secretName; Error := "" |}.

Definition errored (secretName : string) : TargetStatus :=
  {| ApiUrl := ""; Namespace := "ns"; SecretName := secretName;
     Error := "namespace is terminating" |}.

(** Three remote secrets: one without a scope, one scoped to [org/repo] whose
    second target is the local one, one scoped to [org/repo] with no local
    target. *)
Definition unscoped : RemoteSecret :=
  {| Name := "unscoped"; Annotations := ∅; Status_Targets := [local "secret-unscoped"] |}.

Definition scoped : RemoteSecret :=
  {| Name := "scoped";
     Annotations := {[ RepositoryAnnotation := "org/other,org/repo" ]};
     Status_Targets := [remote "secret-elsewhere"; local "secret-scoped"] |}.

Definition broken : RemoteSecret :=
  {| Name := "broken";
     Annotations := {[ RepositoryAnnotation := "org/repo" ]};
     Status_Targets := [remote "secret-elsewhere"; errored "secret-failed"] |}.

(** The secret of [scoped] has both keys of basic authentication, that of
    [unscoped] has the password only. *)
Definition secrets : gmap string Secret :=
  {[ "secret-scoped" :=
       {| Data := {[ "username" := list_byte_of_string "bot";
                     "password" := list_byte_of_string "glpat-2" ]} |};
     "secret-unscoped" :=
       {| Data := {[ "password" := list_byte_of_string "glpat-3" ]} |} ]}.

(** The token as [Ensure] leaves it. *)
Definition refreshed (t : SPIAccessToken) : SPIAccessToken :=
  fst (MetadataCache lookup (MetadataProvider lookup) t).

Definition parsed : URL := {| Scheme := "https"; Host := "gitlab.com"; Path := "/org/repo" |}.

Definition listTokens : Call :=
  CallListTokens "ns" [(ServiceProviderTypeLabel, "GitLab"); (ServiceProviderHostLabel, "gitlab.com")].

Definition listRemoteSecrets : Call :=
  CallListRemoteSecrets "ns" [(RSServiceProviderHostLabel, "gitlab.com")].

(** A GitLab provider whose HTTP client answers 200 for the public
    repository, 418 for the teapot and 404 otherwise; owner and project are
    not parsed any further. *)
Definition provider : Gitlab :=
  {| gitlab.lookup := lookup;
     httpClient := fun req =>
       if String.eqb (Path (Request_URL req)) "/org/public"
       then (Some {| StatusCode := 200 |}, None)
       else if String.eqb (Path (Request_URL req)) "/org/teapot"
       then (Some {| StatusCode := 418 |}, None)
       else (Some {| StatusCode := 404 |}, None);
     glClientBuilder := fun _ => (None, Some (foreign "no client"));
     repoUrlMatcher := fun _ => ("org", "repo", None) |}.

Definition check (repoUrl : string) : SPIAccessCheck :=
  {| Check_Namespace := "ns"; Spec_RepoUrl := repoUrl;
     Spec_Permissions := {| Required := []; AdditionalScopes := [] |} |}.

Definition Error_ (e : error) : string :=
  match e with
  | errors_New text | foreign text => text
  | _ => "error"
  end.

Definition IsWrite (t : PermissionType) : bool := String.eqb t "w" || String.eqb t "rw".

Definition IsValidScope (s : string) : bool :=
  existsb (String.eqb s)
    ["api"; "read_api"; "read_user"; "read_repository"; "write_repository";
     "read_registry"; "write_registry"; "sudo"].

(** The lookup engine with a remote-secret filter that refuses [broken]. *)
Definition lookup_filtered : GenericLookup :=
  {| ServiceProviderType_ := ServiceProviderType_ lookup;
     TokenFilter := TokenFilter lookup;
     TokenStorage := TokenStorage lookup;
     RemoteSecretFilter := Some (fun _ rs => negb (String.eqb (Name rs) "broken"));
     MetadataProvider := MetadataProvider lookup;
     MetadataCache := MetadataCache lookup;
     RepoUrlParser := RepoUrlParser lookup |}.

(** A request whose URL the parser refuses. *)
Definition bad_request : Matchable :=
  {| RepoUrl := "gitlab.com/org/my repo"; ObjNamespace := "ns";
     Permissions_ := {| Required := []; AdditionalScopes := [] |} |}.

(** Secrets for the file download: one with a password, one with a user name
    only, one without data. *)
Definition file_secrets : gmap string Secret :=
  {[ "with-password" := {| Data := {[ "password" := list_byte_of_string "glpat-4" ]} |};
     "without-password" := {| Data := {[ "username" := list_byte_of_string "bot" ]} |};
     "without-data" := {| Data := ∅ |} ]}.

(** A stand-in for [detect]: the raw URL of the file; no URL for a
    repository it does not know. *)
Definition detect (repoUrl filepath ref : string) (authHeaders : gmap string string)
    : string * option error :=
  if String.eqb repoUrl "https://example.org/unknown"
  then ("", Some (foreign "no suitable SCM provider detected"))
  else (repoUrl +:+ "/-/raw/" +:+ ref +:+ "/" +:+ filepath, None).

(** An HTTP client that answers 404 with a body whatever the request. *)
Definition Do (req : Request) : option gitfile.FileResponse * option error :=
  (Some {| gitfile.File_StatusCode := 404;
           gitfile.File_Body := list_byte_of_string "404 page not found" |}, None).

End sample.

(** * Properties *)

Import api v1beta1 v1 serviceprovider gitlab notions.

(** ** Strings *)

Lemma substring_whole (s t : string) :
  String.substring 0 (String.length s) (s +:+ t) = s.
Proof.
  induction s as [|c s IH]; simpl.
  - now destruct t.
  - now rewrite IH.
Qed.

Lemma substring_skip (b s : string) (n : nat) :
  String.substring (String.length b) n (b +:+ s) = String.substring 0 n s.
Proof. induction b as [|c b IH]; simpl; [reflexivity | exact IH]. Qed.

Lemma substring_is_prefix (n : nat) (s sub : string) :
  String.substring 0 n s = sub -> exists after, s = sub +:+ after.
Proof.
  revert s sub. induction n as [|n IH]; intros s sub H.
  - destruct s; simpl in H; subst sub; eexists; reflexivity.
  - destruct s as [|c s]; simpl in H.
    + subst sub. now exists "".
    + destruct sub as [|c' sub]; [discriminate|].
      injection H as -> H. destruct (IH _ _ H) as [after ->].
      now exists after.
Qed.

Lemma substring_occurs (m n : nat) (s sub : string) :
  String.substring m n s = sub -> sub <> "" -> occurs_in sub s.
Proof.
  revert s. induction m as [|m IH]; intros s H Hne.
  - destruct (substring_is_prefix _ _ _ H) as [after ->].
    now exists "", after.
  - destruct s as [|c s]; simpl in H.
    + destruct n; simpl in H; congruence.
    + destruct (IH _ H Hne) as (before & after & ->).
      now exists (String c before), after.
Qed.

Lemma occurs_substring (sub s : string) :
  occurs_in sub s ->
  exists m, String.substring m (String.length sub) s = sub.
Proof.
  intros (before & after & ->). exists (String.length before).
  rewrite substring_skip. apply substring_whole.
Qed.

(** [strings.Index] is -1 exactly when the substring does not occur. *)
Lemma strings_Index_absent (s sub : string) :
  sub <> "" -> (strings_Index s sub = -1 <-> ~ occurs_in sub s).
Proof.
  intros Hne. unfold strings_Index. split.
  - destruct (String.index 0 sub s) as [n|] eqn:E; [lia|].
    intros _ Hocc. destruct (occurs_substring _ _ Hocc) as [m Hm].
    exact (String.index_correct3 0 m sub s E Hne (Nat.le_0_l m) Hm).
  - intros Hno. destruct (String.index 0 sub s) as [n|] eqn:E; [|reflexivity].
    exfalso. apply Hno.
    exact (substring_occurs _ _ _ _ (String.index_correct1 _ _ _ _ E) Hne).
Qed.

Lemma substring_all (s : string) :
  String.substring 0 (String.length s) s = s.
Proof. induction s as [|c s IH]; simpl; [reflexivity | now rewrite IH]. Qed.

Lemma strings_TrimPrefix_slash (p : string) :
  strings_TrimPrefix (String "/" p) "/" = p.
Proof.
  unfold strings_TrimPrefix.
  replace (String.prefix "/" (String "/" p)) with true
    by (simpl; now destruct p).
  simpl. rewrite Nat.sub_0_r. apply substring_all.
Qed.

Lemma strings_TrimPrefix_no_slash (p : string) :
  String.prefix "/" p = false -> strings_TrimPrefix p "/" = p.
Proof. unfold strings_TrimPrefix. now intros ->. Qed.

Lemma slices_Contains_In (s : list string) (v : string) :
  slices_Contains s v = true <-> In v s.
Proof.
  induction s as [|x s IH]; simpl; [easy|].
  destruct (String.eqb_spec x v); [tauto|].
  rewrite IH. split; [tauto | intros [?|?]; congruence].
Qed.

(** ** The URL parser *)

Lemma https_occurs (s : string) : occurs_in "://" ("https://" +:+ s).
Proof. now exists "https", s. Qed.

Lemma RepoUrlFromSchemalessString_with_scheme (url_Parse : string -> error + URL) (s : string) :
  occurs_in "://" s ->
  RepoUrlFromSchemalessString url_Parse s = RepoUrlFromString url_Parse s.
Proof.
  intros Hocc. unfold RepoUrlFromSchemalessString.
  destruct (Z.eqb_spec (strings_Index s "://") (-1)) as [E|E]; [|reflexivity].
  apply strings_Index_absent in E; [contradiction | discriminate].
Qed.

(** C7. A repository URL without ["://"] is parsed as the same string with
    ["https://"] put in front of it: the outcome is that of [RepoUrlFromString]
    on the prefixed string, and that of the parser itself on the prefixed
    string, so host and path are the same; when [url.Parse] refuses the
    string, the parser fails with an error that wraps the cause. *)
Theorem RepoUrlFromSchemalessString_prepends_https
    (url_Parse : string -> error + URL) (s : string) :
  ~ occurs_in "://" s ->
  RepoUrlFromSchemalessString url_Parse s = RepoUrlFromString url_Parse ("https://" +:+ s)
  /\ RepoUrlFromSchemalessString url_Parse s
     = RepoUrlFromSchemalessString url_Parse ("https://" +:+ s)
  /\ (forall u, url_Parse ("https://" +:+ s) = inr u ->
        RepoUrlFromSchemalessString url_Parse s = (Some u, None))
  /\ (forall cause, url_Parse ("https://" +:+ s) = inl cause ->
        exists err, RepoUrlFromSchemalessString url_Parse s = (None, Some err)
                    /\ errors_Unwrap err = Some cause)
  /\ (forall s' cause, occurs_in "://" s' -> url_Parse s' = inl cause ->
        exists err, RepoUrlFromSchemalessString url_Parse s' = (None, Some err)
                    /\ errors_Unwrap err = Some cause).
Proof.
  intros Hno.
  assert (E : RepoUrlFromSchemalessString url_Parse s
              = RepoUrlFromString url_Parse ("https://" +:+ s)).
  { unfold RepoUrlFromSchemalessString.
    apply strings_Index_absent in Hno; [|discriminate].
    now rewrite Hno. }
  split; [exact E|]. split.
  { rewrite E. symmetry. apply RepoUrlFromSchemalessString_with_scheme, https_occurs. }
  split; [|split].
  - intros u Hu. rewrite E. unfold RepoUrlFromString. now rewrite Hu.
  - intros cause Hc. rewrite E. unfold RepoUrlFromString. rewrite Hc.
    eexists; split; reflexivity.
  - intros s' cause Hocc Hc.
    rewrite (RepoUrlFromSchemalessString_with_scheme _ _ Hocc).
    unfold RepoUrlFromString. rewrite Hc. eexists; split; reflexivity.
Qed.

Lemma RepoUrlFromSchemalessString_prepends_https_witness :
  ~ occurs_in "://" "gitlab.com/org/repo"
  /\ RepoUrlFromSchemalessString sample.url_Parse "gitlab.com/org/repo"
     = (Some {| Scheme := "https"; Host := "gitlab.com"; Path := "/org/repo" |}, None).
Proof.
  assert (H : ~ occurs_in "://" "gitlab.com/org/repo")
    by (apply strings_Index_absent; [discriminate | reflexivity]).
  split; [exact H|].
  apply (RepoUrlFromSchemalessString_prepends_https sample.url_Parse _ H).
  reflexivity.
Defined.

(** ** The concurrent evaluation of the candidates *)

Lemma completion_order_Permutation {A} (sched : list nat) (pending : list A) :
  completion_order sched pending ≡ₚ pending.
Proof.
  revert pending. induction sched as [|n sched IH]; intros pending; simpl; [reflexivity|].
  destruct (pending !! (n mod length pending)%nat) as [t|] eqn:E; [|reflexivity].
  rewrite IH. symmetry. now apply delete_Permutation.
Qed.

(** Every order of completion is the order of some schedule. *)
Lemma completion_order_complete {A} (pending order : list A) :
  pending ≡ₚ order -> exists sched, completion_order sched pending = order.
Proof.
  revert pending. induction order as [|t order IH]; intros pending HP.
  - apply Permutation_nil_r in HP. subst. now exists [].
  - assert (Hin : t ∈ pending) by (rewrite HP; left).
    apply list_elem_of_lookup in Hin as [i Hi].
    assert (Hlt : (i < length pending)%nat) by (eapply lookup_lt_Some; eauto).
    destruct (IH (delete i pending)) as [sched Hs].
    { apply (Permutation_cons_inv (a := t)).
      rewrite <- HP. symmetry. now apply delete_Permutation. }
    exists (i :: sched). simpl.
    rewrite Nat.mod_small by exact Hlt. rewrite Hi. now rewrite Hs.
Qed.

Lemma spawned_filter (potentialMatches : list SPIAccessToken) :
  spawned potentialMatches = List.filter ready potentialMatches.
Proof.
  induction potentialMatches as [|t rest IH]; simpl; [reflexivity|].
  unfold ready at 1. destruct (String.eqb _ _); simpl; now rewrite IH.
Qed.

Lemma length_omap_filter {A B} (f : A -> option B) (l : list A) :
  length (omap f l)
  = length (List.filter (fun x => match f x with Some _ => true | None => false end) l).
Proof.
  induction l as [|x l IH]; [reflexivity|].
  cbn. destruct (f x); cbn; now rewrite <- IH.
Qed.

Lemma In_omap {A B} (f : A -> option B) (l : list A) (y : B) :
  In y (omap f l) <-> exists x, In x l /\ f x = Some y.
Proof.
  induction l as [|x l IH]; cbn.
  - split; [easy | now intros (? & [] & _)].
  - destruct (f x) as [y'|] eqn:E; cbn; rewrite IH; split.
    + intros [<-|(x' & ? & ?)]; eauto.
    + intros (x' & [<-|?] & ?); [left; congruence | eauto].
    + intros (x' & ? & ?); eauto.
    + intros (x' & [<-|?] & ?); [congruence | eauto].
Qed.

Lemma filter_filter_same {A} (f : A -> bool) (l : list A) :
  List.filter f (List.filter f l) = List.filter f l.
Proof.
  induction l as [|x l IH]; simpl; [reflexivity|].
  destruct (f x) eqn:E; simpl; rewrite ?E, IH; reflexivity.
Qed.

Section LookupProperties.
Variable l : GenericLookup.
Variable matchable : Matchable.

Lemma goroutine_spec (tkn : SPIAccessToken) (result : list SPIAccessToken) (errs : list error) :
  goroutine l matchable tkn (result, errs)
  = (Returned (result ++ option_list (candidate_match l matchable tkn),
               errs ++ option_list (candidate_error l matchable tkn)),
     candidate_calls l tkn).
Proof.
  unfold goroutine, candidate_match, candidate_error, candidate_calls.
  destruct (MetadataCache l (MetadataProvider l) tkn) as [tkn' [err|]]; simpl.
  - now rewrite app_nil_r.
  - destruct (TokenFilter l matchable tkn') as [[|] [err|]]; simpl;
      now rewrite ?app_nil_r.
Qed.

Lemma wait_spec (tasks : list SPIAccessToken) (result : list SPIAccessToken) (errs : list error) :
  wait l matchable tasks (result, errs)
  = (Returned (result ++ omap (candidate_match l matchable) tasks,
               errs ++ omap (candidate_error l matchable) tasks),
     flat_map (candidate_calls l) tasks).
Proof.
  revert result errs. induction tasks as [|tkn rest IH]; intros result errs.
  - simpl. now rewrite !app_nil_r.
  - cbn [wait]. rewrite goroutine_spec. cbn [bind]. rewrite IH. cbn.
    destruct (candidate_match l matchable tkn), (candidate_error l matchable tkn);
      cbn; now rewrite <- ?app_assoc, ?app_nil_r.
Qed.

Lemma candidate_match_phase (tkn tkn' : SPIAccessToken) :
  (forall provider t, Status_Phase (fst (MetadataCache l provider t)) = Status_Phase t) ->
  candidate_match l matchable tkn = Some tkn' -> Status_Phase tkn' = Status_Phase tkn.
Proof.
  intros Hphase. unfold candidate_match.
  specialize (Hphase (MetadataProvider l) tkn).
  destruct (MetadataCache l (MetadataProvider l) tkn) as [t' [err|]]; [discriminate|].
  destruct (TokenFilter l matchable t') as [[|] [err|]]; try discriminate.
  now intros [= <-].
Qed.

(** What [Lookup] does once the URL is parsed and the candidates are listed. *)
Lemma Lookup_listed (sched : list nat) (cl : Client) (u : URL)
    (potentialMatches : list SPIAccessToken) :
  RepoUrlParser l (RepoUrl matchable) = (Some u, None) ->
  List_SPIAccessToken cl (ObjNamespace matchable)
    [(ServiceProviderTypeLabel, ServiceProviderType_ l); (ServiceProviderHostLabel, Host u)]
  = inr potentialMatches ->
  let tasks := completion_order sched (List.filter ready potentialMatches) in
  let errs := omap (candidate_error l matchable) tasks in
  Lookup l sched cl matchable
  = (Returned (match errs with
               | [] => (Some (omap (candidate_match l matchable) tasks), None)
               | _ => (None, Some (fmt_Errorf "errors while examining the potential matches: "
                                     (aggregate errs) ""))
               end),
     CallListTokens (ObjNamespace matchable)
       [(ServiceProviderTypeLabel, ServiceProviderType_ l); (ServiceProviderHostLabel, Host u)]
     :: flat_map (candidate_calls l) tasks).
Proof.
  intros Hparse Hlist tasks errs. unfold Lookup. rewrite Hparse. simpl.
  rewrite Hlist. rewrite spawned_filter, wait_spec. fold tasks. simpl. fold errs.
  destruct errs as [|e errs']; simpl; [now rewrite app_nil_r|].
  unfold len. simpl. now rewrite app_nil_r.
Qed.

(** [Lookup] returns unless the URL parser yields neither a URL nor an error. *)
Lemma Lookup_returns (sched : list nat) (cl : Client) :
  RepoUrlParser l (RepoUrl matchable) <> (None, None) ->
  exists out calls, Lookup l sched cl matchable = (Returned out, calls).
Proof.
  intros Hparser.
  destruct (RepoUrlParser l (RepoUrl matchable)) as [[u|] [perr|]] eqn:Hparse;
    try congruence.
  1, 3: (unfold Lookup; rewrite Hparse; cbn; now eexists _, _).
  destruct (List_SPIAccessToken cl (ObjNamespace matchable)
              [(ServiceProviderTypeLabel, ServiceProviderType_ l);
               (ServiceProviderHostLabel, Host u)]) as [lerr|potentialMatches] eqn:Hlist.
  - unfold Lookup; rewrite Hparse; cbn. rewrite Hlist. cbn. now eexists _, _.
  - rewrite (Lookup_listed sched cl u potentialMatches Hparse Hlist). now eexists _, _.
Qed.

(** C2. When the URL parses and the candidates are listed, and the evaluation
    of at least one ready candidate fails, [Lookup] returns, under every
    schedule, a nil result with an error that wraps an aggregate; the errors
    of the aggregate are those of the failing ready candidates, one each, in
    the order of completion, so as many as there are failing candidates. *)
Theorem Lookup_aggregates_every_failure (sched : list nat) (cl : Client) (u : URL)
    (potentialMatches : list SPIAccessToken) :
  RepoUrlParser l (RepoUrl matchable) = (Some u, None) ->
  List_SPIAccessToken cl (ObjNamespace matchable)
    [(ServiceProviderTypeLabel, ServiceProviderType_ l); (ServiceProviderHostLabel, Host u)]
  = inr potentialMatches ->
  (exists t, In t potentialMatches /\ ready t = true /\ fails l matchable t = true) ->
  exists errs calls,
    Lookup l sched cl matchable
    = (Returned (None, Some (fmt_Errorf "errors while examining the potential matches: "
                               (aggregate errs) "")), calls)
    /\ errs ≡ₚ omap (candidate_error l matchable) (List.filter ready potentialMatches)
    /\ length errs
       = length (List.filter (fails l matchable) (List.filter ready potentialMatches)).
Proof.
  intros Hparse Hlist (t & Hin & Hready & Hfails).
  pose proof (Lookup_listed sched cl u potentialMatches Hparse Hlist) as HL.
  cbv zeta in HL.
  set (tasks := completion_order sched (List.filter ready potentialMatches)) in *.
  assert (HP : omap (candidate_error l matchable) tasks
               ≡ₚ omap (candidate_error l matchable) (List.filter ready potentialMatches)).
  { unfold tasks. now rewrite completion_order_Permutation. }
  destruct (omap (candidate_error l matchable) tasks) as [|e errs] eqn:E.
  - exfalso. unfold fails in Hfails.
    destruct (candidate_error l matchable t) as [e|] eqn:Ee; [|discriminate].
    assert (Hin' : In e (omap (candidate_error l matchable) (List.filter ready potentialMatches))).
    { apply In_omap. exists t. split; [|exact Ee]. apply filter_In. now split. }
    apply (Permutation_in _ (Permutation_sym HP)) in Hin'. destruct Hin'.
  - exists (e :: errs). eexists. split; [exact HL|]. split; [exact HP|].
    rewrite (Permutation_length HP). apply length_omap_filter.
Qed.

(** C5. Provided that [Ensure] leaves the phase of a token as it is: every
    token that [Lookup] returns is in phase [Ready]; the candidates that are
    not ready have no part in the call, which returns the same value and makes
    the same calls when the store lists the ready candidates only; and
    [Lookup] always returns, unless the URL parser yields neither a URL nor an
    error. *)
Theorem Lookup_returns_ready_tokens_only (sched : list nat) (cl : Client) :
  (forall provider t, Status_Phase (fst (MetadataCache l provider t)) = Status_Phase t) ->
  (forall tokens err calls,
      Lookup l sched cl matchable = (Returned (tokens, err), calls) ->
      Forall (fun t => Status_Phase t = SPIAccessTokenPhaseReady) (items tokens))
  /\ Lookup l sched cl matchable = Lookup l sched (only_ready cl) matchable
  /\ (forall why calls,
        Lookup l sched cl matchable = (Panicked why, calls) ->
        RepoUrlParser l (RepoUrl matchable) = (None, None)).
Proof.
  intros Hphase.
  destruct (RepoUrlParser l (RepoUrl matchable)) as [[u|] [perr|]] eqn:Hparse.
  1, 3: (unfold Lookup; rewrite Hparse; cbn; repeat split;
         [intros tokens err calls [= <- _ _]; constructor | discriminate]).
  2: { unfold Lookup; rewrite Hparse; cbn. repeat split; discriminate. }
  set (labels := [(ServiceProviderTypeLabel, ServiceProviderType_ l);
                  (ServiceProviderHostLabel, Host u)]).
  destruct (List_SPIAccessToken cl (ObjNamespace matchable) labels)
    as [lerr|potentialMatches] eqn:Hlist.
  - unfold Lookup; rewrite Hparse; cbn. fold labels. rewrite Hlist. cbn.
    repeat split; [intros tokens err calls [= <- _ _]; constructor | discriminate].
  - pose proof (Lookup_listed sched cl u potentialMatches Hparse Hlist) as HL.
    assert (Hlist' : List_SPIAccessToken (only_ready cl) (ObjNamespace matchable) labels
                     = inr (List.filter ready potentialMatches))
      by (cbn; now rewrite Hlist).
    pose proof (Lookup_listed sched (only_ready cl) u _ Hparse Hlist') as HL'.
    cbv zeta in HL, HL'. rewrite filter_filter_same in HL'.
    split; [|split].
    + intros tokens err calls Hret. rewrite HL in Hret.
      apply List.Forall_forall. intros tkn' Hin.
      destruct (omap (candidate_error l matchable) _); injection Hret as <- _ _;
        [|destruct Hin].
      cbn in Hin. apply In_omap in Hin as (tkn & Hin & Hm).
      rewrite (candidate_match_phase _ _ Hphase Hm).
      apply (Permutation_in _ (completion_order_Permutation _ _)) in Hin.
      apply filter_In in Hin as [_ Hr]. now apply String.eqb_eq in Hr.
    + now rewrite HL, HL'.
    + intros why calls Hp. rewrite HL in Hp. discriminate.
Qed.

End LookupProperties.

Lemma Lookup_aggregates_every_failure_witness :
  Lookup sample.lookup [2%nat; 0%nat]
    (sample.client [sample.alice; sample.bob; sample.carol; sample.dave] [] ∅)
    sample.request
  = (Returned (None, Some (fmt_Errorf "errors while examining the potential matches: "
                             (aggregate [foreign "filter failed"; foreign "metadata fetch failed"]) "")),
     [CallListTokens "ns" [(ServiceProviderTypeLabel, "GitLab");
                           (ServiceProviderHostLabel, "gitlab.com")];
      CallEnsure sample.dave;
      CallTokenFilter (fst (MetadataCache sample.lookup (MetadataProvider sample.lookup) sample.dave));
      CallEnsure sample.alice;
      CallTokenFilter (fst (MetadataCache sample.lookup (MetadataProvider sample.lookup) sample.alice));
      CallEnsure sample.carol])
  /\ exists errs calls,
      Lookup sample.lookup [2%nat; 0%nat]
        (sample.client [sample.alice; sample.bob; sample.carol; sample.dave] [] ∅)
        sample.request
      = (Returned (None, Some (fmt_Errorf "errors while examining the potential matches: "
                                 (aggregate errs) "")), calls)
      /\ errs ≡ₚ omap (candidate_error sample.lookup sample.request)
                   (List.filter ready [sample.alice; sample.bob; sample.carol; sample.dave])
      /\ length errs = 2%nat.
Proof.
  split; [vm_compute; reflexivity|].
  apply (Lookup_aggregates_every_failure sample.lookup sample.request [2%nat; 0%nat]
           (sample.client [sample.alice; sample.bob; sample.carol; sample.dave] [] ∅)
           {| Scheme := "https"; Host := "gitlab.com"; Path := "/org/repo" |}
           [sample.alice; sample.bob; sample.carol; sample.dave]).
  - vm_compute; reflexivity.
  - reflexivity.
  - exists sample.carol. split; [simpl; tauto | split; vm_compute; reflexivity].
Defined.

Lemma Lookup_returns_ready_tokens_only_witness :
  (forall provider t,
      Status_Phase (fst (MetadataCache sample.lookup provider t)) = Status_Phase t)
  /\ Lookup sample.lookup [1%nat] (sample.client [sample.bob; sample.alice; sample.erin] [] ∅)
       sample.request
     = Lookup sample.lookup [1%nat] (sample.client [sample.alice; sample.erin] [] ∅)
         sample.request.
Proof.
  assert (H : forall provider t,
             Status_Phase (fst (MetadataCache sample.lookup provider t)) = Status_Phase t).
  { intros provider t. simpl. destruct (provider t) as [md [err|]]; reflexivity. }
  split; [exact H|].
  apply (Lookup_returns_ready_tokens_only sample.lookup sample.request [1%nat]
           (sample.client [sample.bob; sample.alice; sample.erin] [] ∅) H).
Defined.

(** ** [LookupCredentials] *)

Lemma len_cons_pos {A} (x : A) (s : list A) : (len (x :: s) >? 0) = true.
Proof. unfold len. simpl length. rewrite Z.gtb_ltb. apply Z.ltb_lt. lia. Qed.

Lemma index_head {Ev A} (x : A) (s : list A) : index (Ev := Ev) (x :: s) 0 = ret x.
Proof. reflexivity. Qed.

Lemma Lookup_calls (l : GenericLookup) (sched : list nat) (cl : Client) (matchable : Matchable)
    (c : Call) :
  In c (snd (Lookup l sched cl matchable)) -> remote_secret_call c = false.
Proof.
  destruct (RepoUrlParser l (RepoUrl matchable)) as [[u|] [perr|]] eqn:Hparse;
    try (unfold Lookup; rewrite Hparse; cbn; tauto).
  destruct (List_SPIAccessToken cl (ObjNamespace matchable)
              [(ServiceProviderTypeLabel, ServiceProviderType_ l);
               (ServiceProviderHostLabel, Host u)]) as [lerr|potentialMatches] eqn:Hlist.
  - unfold Lookup; rewrite Hparse; cbn. rewrite Hlist. cbn. intros [<-|[]]. reflexivity.
  - rewrite (Lookup_listed l matchable sched cl u potentialMatches Hparse Hlist). cbn.
    intros [<-|Hin]; [reflexivity|].
    apply in_flat_map in Hin as (t & _ & Hin). unfold candidate_calls in Hin.
    destruct (MetadataCache l (MetadataProvider l) t) as [t' [err|]]; cbn in Hin;
      intuition (subst; reflexivity).
Qed.

(** *** The local target of a remote secret *)

Lemma local_target_test (namespace : string) (target : TargetStatus) :
  String.eqb (ApiUrl target) "" && String.eqb (Error target) ""
  && String.eqb (Namespace target) namespace = true
  <-> local_target namespace target.
Proof.
  unfold local_target. rewrite !andb_true_iff, !String.eqb_eq. tauto.
Qed.

Lemma getLocalNamespaceTargetIndex_from_found (i : Z) (targets : list TargetStatus)
    (namespace : string) (k : nat) (target : TargetStatus) :
  targets !! k = Some target ->
  local_target namespace target ->
  (forall j target', (j < k)%nat -> targets !! j = Some target' ->
                     ~ local_target namespace target') ->
  getLocalNamespaceTargetIndex_from i targets namespace = i + Z.of_nat k.
Proof.
  revert i k. induction targets as [|t rest IH]; intros i k Hk Hloc Hfirst; [discriminate|].
  cbn [getLocalNamespaceTargetIndex_from].
  destruct k as [|k].
  - injection Hk as ->. apply local_target_test in Hloc. rewrite Hloc. lia.
  - destruct (_ && _) eqn:E.
    + apply local_target_test in E. now destruct (Hfirst 0%nat t (Nat.lt_0_succ k) eq_refl).
    + rewrite (IH (i + 1) k Hk Hloc); [lia|].
      intros j t' Hj Ht'. apply (Hfirst (S j) t'); [lia | exact Ht'].
Qed.

Lemma getLocalNamespaceTargetIndex_from_none (i : Z) (targets : list TargetStatus)
    (namespace : string) :
  (forall target, In target targets -> ~ local_target namespace target) ->
  getLocalNamespaceTargetIndex_from i targets namespace = -1.
Proof.
  revert i. induction targets as [|t rest IH]; intros i Hnone; [reflexivity|].
  cbn [getLocalNamespaceTargetIndex_from].
  destruct (_ && _) eqn:E.
  - apply local_target_test in E. destruct (Hnone t (or_introl eq_refl) E).
  - apply IH. intros t' Hin. apply Hnone. now right.
Qed.

(** The index is -1 or the index of a local target: the range check of the
    caller guards against nothing else. *)
Lemma getLocalNamespaceTargetIndex_range (targets : list TargetStatus) (namespace : string) :
  getLocalNamespaceTargetIndex targets namespace = -1
  \/ exists target,
       0 <= getLocalNamespaceTargetIndex targets namespace < len targets
       /\ targets !! Z.to_nat (getLocalNamespaceTargetIndex targets namespace) = Some target
       /\ local_target namespace target.
Proof.
  unfold getLocalNamespaceTargetIndex.
  assert (G : forall i, 0 <= i ->
            getLocalNamespaceTargetIndex_from i targets namespace = -1
            \/ exists target,
                 i <= getLocalNamespaceTargetIndex_from i targets namespace < i + len targets
                 /\ targets !! Z.to_nat (getLocalNamespaceTargetIndex_from i targets namespace - i)
                    = Some target
                 /\ local_target namespace target).
  { induction targets as [|t rest IH]; intros i Hi; [now left|].
    cbn [getLocalNamespaceTargetIndex_from].
    destruct (_ && _) eqn:E.
    - right. exists t. apply local_target_test in E.
      rewrite Z.sub_diag. unfold len. cbn. split; [lia | now split].
    - destruct (IH (i + 1) ltac:(lia)) as [->|(t' & Hr & Hl & Hloc)]; [now left|].
      right. exists t'. unfold len in *. cbn [length]. split; [lia|]. split; [|exact Hloc].
      replace (Z.to_nat (getLocalNamespaceTargetIndex_from (i + 1) rest namespace - i))
        with (S (Z.to_nat (getLocalNamespaceTargetIndex_from (i + 1) rest namespace - (i + 1))))
        by lia.
      exact Hl. }
  destruct (G 0 ltac:(lia)) as [->|(t & Hr & Hl & Hloc)]; [now left|].
  right. exists t. rewrite Z.sub_0_r in Hl. rewrite Z.add_0_l in Hr.
  split; [exact Hr | split; [exact Hl | exact Hloc]].
Qed.

(** *** The choice among the remote secrets *)

Section Choice.
Variable Values : string -> list string.
Variable key : string.
Variable repoUrl : URL.

Lemma scoped_to_test (rs : RemoteSecret) :
  slices_Contains (Values (annotation (Annotations rs) key))
    (strings_TrimPrefix (Path repoUrl) "/") = true
  <-> scoped_to Values key repoUrl rs.
Proof. apply slices_Contains_In. Qed.

Lemma scopedRemoteSecret_first_scoped (remoteSecrets : list RemoteSecret) (i : nat)
    (rs fallback : RemoteSecret) :
  remoteSecrets !! i = Some rs ->
  scoped_to Values key repoUrl rs ->
  (forall j rs', (j < i)%nat -> remoteSecrets !! j = Some rs' ->
                 ~ scoped_to Values key repoUrl rs') ->
  scopedRemoteSecret Values key remoteSecrets repoUrl fallback = rs.
Proof.
  revert i. induction remoteSecrets as [|r rest IH]; intros i Hi Hsc Hfirst; [discriminate|].
  cbn [scopedRemoteSecret].
  destruct i as [|i].
  - injection Hi as ->. apply scoped_to_test in Hsc. now rewrite Hsc.
  - destruct (slices_Contains _ _) eqn:E.
    + apply scoped_to_test in E. now destruct (Hfirst 0%nat r (Nat.lt_0_succ i) eq_refl).
    + apply (IH i Hi Hsc). intros j r' Hj Hr'. apply (Hfirst (S j) r'); [lia | exact Hr'].
Qed.

Lemma scopedRemoteSecret_none_scoped (remoteSecrets : list RemoteSecret)
    (fallback : RemoteSecret) :
  (forall rs, In rs remoteSecrets -> ~ scoped_to Values key repoUrl rs) ->
  scopedRemoteSecret Values key remoteSecrets repoUrl fallback = fallback.
Proof.
  induction remoteSecrets as [|r rest IH]; intros Hnone; [reflexivity|].
  cbn [scopedRemoteSecret].
  destruct (slices_Contains _ _) eqn:E.
  - apply scoped_to_test in E. destruct (Hnone r (or_introl eq_refl) E).
  - apply IH. intros r' Hin. apply Hnone. now right.
Qed.

(** The loop yields a scoped remote secret of the list, or the fallback when
    no remote secret of the list is scoped. *)
Lemma scopedRemoteSecret_cases (remoteSecrets : list RemoteSecret) (fallback : RemoteSecret) :
  (In (scopedRemoteSecret Values key remoteSecrets repoUrl fallback) remoteSecrets
   /\ scoped_to Values key repoUrl (scopedRemoteSecret Values key remoteSecrets repoUrl fallback))
  \/ (scopedRemoteSecret Values key remoteSecrets repoUrl fallback = fallback
      /\ forall rs, In rs remoteSecrets -> ~ scoped_to Values key repoUrl rs).
Proof.
  induction remoteSecrets as [|r rest IH]; [right; split; [reflexivity | intros ? []]|].
  cbn [scopedRemoteSecret].
  destruct (slices_Contains _ _) eqn:E.
  - left. apply scoped_to_test in E. split; [now left | exact E].
  - destruct IH as [[Hin Hsc]|[Heq Hnone]]; [left; split; [now right | exact Hsc]|].
    right. split; [exact Heq|]. intros rs [<-|Hin]; [|now apply Hnone].
    intros Hsc. apply scoped_to_test in Hsc. congruence.
Qed.

Lemma scopedRemoteSecret_single (rs : RemoteSecret) :
  scopedRemoteSecret Values key [rs] repoUrl rs = rs.
Proof. cbn. now destruct (slices_Contains _ _). Qed.

End Choice.

Section CredentialsProperties.
Variable Values : string -> list string.
Variable key : string.
Variable l : GenericLookup.
Variable cl : Client.
Variable matchable : Matchable.


(** With a matching token, the credentials come from token storage. *)
Lemma LookupCredentials_token (sched : list nat) (tokens : option (list SPIAccessToken))
    (calls : list Call) (tkn : SPIAccessToken) (rest : list SPIAccessToken) :
  Lookup l sched cl matchable = (Returned (tokens, None), calls) ->
  items tokens = tkn :: rest ->
  LookupCredentials Values key l sched cl matchable
  = (Returned (match TokenStorage l tkn with
               | (_, Some err) => (None, Some (fmt_Errorf "failed to get token data: " err ""))
               | (None, None) => (None, Some accessTokenNotFoundError)
               | (Some tokenData, None) =>
                   (Some {| Cred_Username := Username tokenData;
                            Cred_Token := AccessToken tokenData |}, None)
               end),
     calls ++ [CallTokenStorageGet tkn]).
Proof.
  intros HL Hitems. unfold LookupCredentials. rewrite HL. cbn [bind].
  rewrite Hitems, len_cons_pos, index_head. cbn [bind ret].
  destruct (TokenStorage l tkn) as [[d|] [err|]]; cbn; rewrite ?app_nil_r; reflexivity.
Qed.

(** Without a matching token, they come from the remote secrets. *)
Lemma LookupCredentials_no_token (sched : list nat) (tokens : option (list SPIAccessToken))
    (calls : list Call) :
  Lookup l sched cl matchable = (Returned (tokens, None), calls) ->
  items tokens = [] ->
  LookupCredentials Values key l sched cl matchable
  = match lookupRemoteSecrets l cl matchable with
    | (Returned (_, Some err), calls1) => (Returned (None, Some err), calls ++ calls1)
    | (Returned (remoteSecrets, None), calls1) =>
        match lookupRemoteSecretSecret Values key l cl matchable (items remoteSecrets) with
        | (Returned (_, Some err), calls2) => (Returned (None, Some err), calls ++ calls1 ++ calls2)
        | (Returned (None, None), calls2) => (Returned (None, None), calls ++ calls1 ++ calls2)
        | (Returned (Some secret, None), calls2) =>
            (Returned (Some {| Cred_Username := string_of_bytes (data (Data secret) BasicAuthUsernameKey);
                               Cred_Token := string_of_bytes (data (Data secret) BasicAuthPasswordKey) |},
                       None), calls ++ calls1 ++ calls2)
        | (Panicked why, calls2) => (Panicked why, calls ++ calls1 ++ calls2)
        end
    | (Panicked why, calls1) => (Panicked why, calls ++ calls1)
    end.
Proof.
  intros HL Hitems. unfold LookupCredentials. rewrite HL. cbn [bind].
  rewrite Hitems. cbn [len length Z.of_nat Z.gtb Z.compare].
  destruct (lookupRemoteSecrets l cl matchable) as [[[rss [err|]]|why] calls1]; cbn;
    rewrite ?app_nil_r; try reflexivity.
  destruct (lookupRemoteSecretSecret Values key l cl matchable (items rss)) as [[[[secret|] [err|]]|why] calls2];
    cbn; rewrite ?app_nil_r; reflexivity.
Qed.

(** *** The resolution of a remote secret to a secret *)

Lemma lookupRemoteSecretSecret_nil :
  lookupRemoteSecretSecret Values key l cl matchable [] = (Returned (None, None), []).
Proof. reflexivity. Qed.

Lemma lookupRemoteSecretSecret_chosen (u : URL) (first : RemoteSecret)
    (rest : list RemoteSecret) :
  RepoUrlParser l (RepoUrl matchable) = (Some u, None) ->
  lookupRemoteSecretSecret Values key l cl matchable (first :: rest)
  = lookupRemoteSecretSecret Values key l cl matchable
      [scopedRemoteSecret Values key (first :: rest) u first].
Proof.
  intros Hparse. unfold lookupRemoteSecretSecret.
  rewrite !(proj2 (Z.eqb_neq _ 0)) by (unfold len; simpl length; lia).
  rewrite Hparse, !index_head. cbn [bind ret deref].
  now rewrite scopedRemoteSecret_single.
Qed.

Lemma lookupRemoteSecretSecret_missing_target (u : URL) (rs : RemoteSecret) :
  RepoUrlParser l (RepoUrl matchable) = (Some u, None) ->
  (forall target, In target (Status_Targets rs) ->
                  ~ local_target (ObjNamespace matchable) target) ->
  lookupRemoteSecretSecret Values key l cl matchable [rs]
  = (Returned (None, Some missingTargetError), []).
Proof.
  intros Hparse Hnone. unfold lookupRemoteSecretSecret. cbn [len length Z.of_nat Z.eqb].
  rewrite Hparse, index_head. cbn [bind ret deref]. rewrite scopedRemoteSecret_single.
  unfold getLocalNamespaceTargetIndex.
  rewrite (getLocalNamespaceTargetIndex_from_none _ _ _ Hnone). reflexivity.
Qed.

Lemma lookupRemoteSecretSecret_local_target (u : URL) (rs : RemoteSecret) (k : nat)
    (target : TargetStatus) :
  RepoUrlParser l (RepoUrl matchable) = (Some u, None) ->
  Status_Targets rs !! k = Some target ->
  local_target (ObjNamespace matchable) target ->
  (forall j target', (j < k)%nat -> Status_Targets rs !! j = Some target' ->
                     ~ local_target (ObjNamespace matchable) target') ->
  getLocalNamespaceTargetIndex (Status_Targets rs) (ObjNamespace matchable) = Z.of_nat k
  /\ lookupRemoteSecretSecret Values key l cl matchable [rs]
     = (Returned (match Get_Secret cl (ObjNamespace matchable) (SecretName target) with
                  | inl err =>
                      (None, Some (fmt_Errorf "unable to find Secret created by RemoteSecret: " err ""))
                  | inr secret => (Some secret, None)
                  end),
        [CallGetSecret (ObjNamespace matchable) (SecretName target)]).
Proof.
  intros Hparse Hk Hloc Hfirst.
  assert (Hidx : getLocalNamespaceTargetIndex (Status_Targets rs) (ObjNamespace matchable)
                 = Z.of_nat k).
  { unfold getLocalNamespaceTargetIndex.
    now rewrite (getLocalNamespaceTargetIndex_from_found 0 _ _ k target Hk Hloc Hfirst). }
  split; [exact Hidx|].
  unfold lookupRemoteSecretSecret. cbn [len length Z.of_nat Z.eqb].
  rewrite Hparse, index_head. cbn [bind ret deref]. rewrite scopedRemoteSecret_single.
  rewrite Hidx.
  assert (Hlt : (k < length (Status_Targets rs))%nat) by (eapply lookup_lt_Some; eauto).
  replace (Z.of_nat k <? 0) with false by (symmetry; apply Z.ltb_ge; lia).
  replace (Z.of_nat k >=? len (Status_Targets rs)) with false
    by (symmetry; unfold len; rewrite Z.geb_leb; apply Z.leb_gt; lia).
  cbn [orb]. unfold index.
  replace (Z.of_nat k <? 0) with false by (symmetry; apply Z.ltb_ge; lia).
  rewrite Nat2Z.id, Hk. cbn [bind ret call].
  destruct (Get_Secret cl (ObjNamespace matchable) (SecretName target)); reflexivity.
Qed.

(** On a list that is not empty the resolution reads a secret or fails: it
    does not panic, and it does not return a nil secret with a nil error. *)
Lemma lookupRemoteSecretSecret_returns (u : URL) (remoteSecrets : list RemoteSecret) :
  RepoUrlParser l (RepoUrl matchable) = (Some u, None) ->
  exists secret err calls,
    lookupRemoteSecretSecret Values key l cl matchable remoteSecrets
    = (Returned (secret, err), calls)
    /\ (secret = None -> err = None -> remoteSecrets = []).
Proof.
  intros Hparse. destruct remoteSecrets as [|first rest].
  - exists None, None, []. now split.
  - rewrite (lookupRemoteSecretSecret_chosen u first rest Hparse).
    set (rs := scopedRemoteSecret Values key (first :: rest) u first).
    unfold lookupRemoteSecretSecret. cbn [len length Z.of_nat Z.eqb].
    rewrite Hparse, index_head. cbn [bind ret deref]. rewrite scopedRemoteSecret_single.
    destruct (getLocalNamespaceTargetIndex_range (Status_Targets rs) (ObjNamespace matchable))
      as [->|(target & Hr & Hl & _)].
    + exists None, (Some missingTargetError), []. split; [reflexivity | discriminate].
    + replace (_ <? 0) with false by (symmetry; apply Z.ltb_ge; lia).
      replace (_ >=? _) with false by (symmetry; rewrite Z.geb_leb; apply Z.leb_gt; lia).
      cbn [orb]. unfold index.
      replace (_ <? 0) with false by (symmetry; apply Z.ltb_ge; lia).
      rewrite Hl. cbn [bind ret call].
      destruct (Get_Secret cl (ObjNamespace matchable) (SecretName target)) as [gerr|secret].
      * eexists None, (Some _), _. split; [reflexivity | discriminate].
      * eexists (Some secret), None, _. split; [reflexivity | discriminate].
Qed.

Lemma filterRemoteSecrets_returns (potentialMatches matches : list RemoteSecret) :
  exists matches' calls,
    filterRemoteSecrets l matchable potentialMatches matches = (Returned matches', calls).
Proof.
  revert matches. induction potentialMatches as [|rs rest IH]; intros matches.
  - now exists matches, [].
  - cbn [filterRemoteSecrets]. destruct (RemoteSecretFilter l) as [filter|]; [|apply IH].
    cbn [bind call]. destruct (filter matchable rs).
    + destruct (IH (matches ++ [rs])) as (ms & calls & ->). now eexists _, _.
    + destruct (IH matches) as (ms & calls & ->). now eexists _, _.
Qed.

Lemma lookupRemoteSecrets_returns (u : URL) :
  RepoUrlParser l (RepoUrl matchable) = (Some u, None) ->
  exists out calls, lookupRemoteSecrets l cl matchable = (Returned out, calls).
Proof.
  intros Hparse. unfold lookupRemoteSecrets. rewrite Hparse. cbn [bind ret deref call].
  destruct (List_RemoteSecret cl _ _) as [lerr|potentialMatches]; [now eexists _, _|].
  destruct (filterRemoteSecrets_returns potentialMatches []) as (ms & calls & ->).
  now eexists _, _.
Qed.

(** [LookupCredentials] returns under every schedule: no index is out of
    range; the only panic is that of a URL parser that yields neither a URL
    nor an error. *)
Lemma LookupCredentials_returns (sched : list nat) :
  RepoUrlParser l (RepoUrl matchable) <> (None, None) ->
  exists out calls,
    LookupCredentials Values key l sched cl matchable = (Returned out, calls).
Proof.
  intros Hparser.
  destruct (RepoUrlParser l (RepoUrl matchable)) as [[u|] [perr|]] eqn:Hparse;
    try congruence.
  1, 3: (unfold LookupCredentials, Lookup; rewrite Hparse; cbn; now eexists _, _).
  destruct (Lookup l sched cl matchable) as [[[tokens [err|]]|why] calls] eqn:HL.
  - unfold LookupCredentials. rewrite HL. cbn. now eexists _, _.
  - destruct (items tokens) as [|tkn rest] eqn:Hitems.
    + rewrite (LookupCredentials_no_token sched tokens calls HL Hitems).
      destruct (lookupRemoteSecrets_returns u Hparse) as ([rss [rerr|]] & calls1 & ->);
        [now eexists _, _|].
      destruct (lookupRemoteSecretSecret_returns u (items rss) Hparse)
        as ([secret|] & [serr|] & calls2 & -> & _); now eexists _, _.
    + rewrite (LookupCredentials_token sched tokens calls tkn rest HL Hitems).
      now eexists _, _.
  - destruct (Lookup_returns l matchable sched cl) as (out & calls' & HL'); congruence.
Qed.

(** C1. [LookupCredentials] consults the remote secrets (lists them, filters
    them, reads a secret of theirs) only when [Lookup] returned no token and
    no error; and when, then, no remote secret matches, or the matches
    resolve to no secret, it returns nil credentials and a nil error. *)
Theorem LookupCredentials_falls_back_only_without_token (sched : list nat) :
  ((exists c, In c (snd (LookupCredentials Values key l sched cl matchable))
              /\ remote_secret_call c = true) ->
   exists tokens calls,
     Lookup l sched cl matchable = (Returned (tokens, None), calls) /\ items tokens = [])
  /\ (forall tokens calls remoteSecrets calls1,
        Lookup l sched cl matchable = (Returned (tokens, None), calls) ->
        items tokens = [] ->
        lookupRemoteSecrets l cl matchable = (Returned (remoteSecrets, None), calls1) ->
        (items remoteSecrets = [] ->
         LookupCredentials Values key l sched cl matchable
         = (Returned (None, None), calls ++ calls1))
        /\ (forall calls2,
              lookupRemoteSecretSecret Values key l cl matchable (items remoteSecrets)
              = (Returned (None, None), calls2) ->
              LookupCredentials Values key l sched cl matchable
              = (Returned (None, None), calls ++ calls1 ++ calls2))).
Proof.
  split.
  - intros (c & Hin & Hc).
    pose proof (Lookup_calls l sched cl matchable) as Hcalls.
    destruct (Lookup l sched cl matchable) as [[[tokens [err|]]|why] calls] eqn:HL.
    + unfold LookupCredentials in Hin. rewrite HL in Hin. cbn in Hin.
      apply in_app_or in Hin as [Hin|[]]. rewrite (Hcalls c Hin) in Hc. discriminate.
    + destruct (items tokens) as [|tkn rest] eqn:Hitems; [now exists tokens, calls|].
      rewrite (LookupCredentials_token sched tokens calls tkn rest HL Hitems) in Hin.
      cbn [snd] in Hin. apply in_app_or in Hin as [Hin|[<-|[]]]; [|discriminate].
      rewrite (Hcalls c Hin) in Hc. discriminate.
    + unfold LookupCredentials in Hin. rewrite HL in Hin. cbn in Hin.
      rewrite (Hcalls c Hin) in Hc. discriminate.
  - intros tokens calls remoteSecrets calls1 HL Hitems HR.
    rewrite (LookupCredentials_no_token sched tokens calls HL Hitems), HR.
    split.
    + intros ->. rewrite lookupRemoteSecretSecret_nil. now rewrite app_nil_r.
    + intros calls2 ->. reflexivity.
Qed.

(** C6. When [Lookup] returns at least one token, [LookupCredentials] asks
    token storage for the data of the first token of the result, and makes no
    other call; when storage has no data and no error, it fails with the
    error "token data is not found", which is neither the nil result nor the
    missing-target error; when storage has data, it returns the user name and
    the access token of the data; an error of storage is wrapped. *)
Theorem LookupCredentials_uses_first_token (sched : list nat)
    (tokens : option (list SPIAccessToken)) (calls : list Call)
    (tkn : SPIAccessToken) (rest : list SPIAccessToken) :
  Lookup l sched cl matchable = (Returned (tokens, None), calls) ->
  items tokens = tkn :: rest ->
  exists out,
    LookupCredentials Values key l sched cl matchable
    = (Returned out, calls ++ [CallTokenStorageGet tkn])
    /\ (TokenStorage l tkn = (None, None) -> out = (None, Some accessTokenNotFoundError))
    /\ (forall tokenData, TokenStorage l tkn = (Some tokenData, None) ->
          out = (Some {| Cred_Username := Username tokenData;
                         Cred_Token := AccessToken tokenData |}, None))
    /\ (forall tokenData err, TokenStorage l tkn = (tokenData, Some err) ->
          out = (None, Some (fmt_Errorf "failed to get token data: " err "")))
    /\ (None, Some accessTokenNotFoundError) <> (@None Credentials, @None error)
    /\ accessTokenNotFoundError <> missingTargetError.
Proof.
  intros HL Hitems. eexists. split.
  - exact (LookupCredentials_token sched tokens calls tkn rest HL Hitems).
  - split; [now intros -> | split; [now intros d -> | split]].
    + intros [d|] err ->; reflexivity.
    + split; discriminate.
Qed.

(** C3. The remote secret that [lookupRemoteSecretSecret] resolves is one of
    those passed to it, and the outcome is the one it has on that remote
    secret alone. It is the first remote secret whose repository annotation
    lists the path of the URL without its leading slash; so when some remote
    secret is scoped to the path, the chosen one is, wherever it stands in
    the list; when none is, it is the first of the list. *)
Theorem lookupRemoteSecretSecret_prefers_scoped (u : URL) (first : RemoteSecret)
    (rest : list RemoteSecret) :
  RepoUrlParser l (RepoUrl matchable) = (Some u, None) ->
  let remoteSecrets := first :: rest in
  let chosen := scopedRemoteSecret Values key remoteSecrets u first in
  In chosen remoteSecrets
  /\ lookupRemoteSecretSecret Values key l cl matchable remoteSecrets
     = lookupRemoteSecretSecret Values key l cl matchable [chosen]
  /\ (forall i rs,
        remoteSecrets !! i = Some rs ->
        scoped_to Values key u rs ->
        (forall j rs', (j < i)%nat -> remoteSecrets !! j = Some rs' ->
                       ~ scoped_to Values key u rs') ->
        chosen = rs)
  /\ ((exists rs, In rs remoteSecrets /\ scoped_to Values key u rs) ->
      scoped_to Values key u chosen)
  /\ ((forall rs, In rs remoteSecrets -> ~ scoped_to Values key u rs) -> chosen = first)
  /\ (forall p, Path u = String "/" p -> strings_TrimPrefix (Path u) "/" = p).
Proof.
  intros Hparse remoteSecrets chosen.
  pose proof (scopedRemoteSecret_cases Values key u remoteSecrets first) as Hcases.
  fold chosen in Hcases.
  split; [|split; [|split; [|split; [|split]]]].
  - destruct Hcases as [[Hin _]|[-> _]]; [exact Hin | now left].
  - exact (lookupRemoteSecretSecret_chosen u first rest Hparse).
  - intros i rs Hi Hsc Hfirst.
    exact (scopedRemoteSecret_first_scoped Values key u remoteSecrets i rs first Hi Hsc Hfirst).
  - intros (rs & Hin & Hsc). destruct Hcases as [[_ H]|[_ Hnone]]; [exact H|].
    destruct (Hnone rs Hin Hsc).
  - intros Hnone. exact (scopedRemoteSecret_none_scoped Values key u remoteSecrets first Hnone).
  - intros p ->. apply strings_TrimPrefix_slash.
Qed.

(** C4. When no token matches and remote secrets do, the chosen remote secret
    is resolved through its target in the local cluster and the namespace of
    the caller: when exactly one target has an empty API URL, an empty error
    and that namespace, its index is found and the secret of that name is
    read; when no target is such, [LookupCredentials] returns, with the
    missing-target error, which is not the nil result. *)
Theorem LookupCredentials_missing_target (sched : list nat)
    (tokens : option (list SPIAccessToken)) (calls : list Call)
    (remoteSecrets : option (list RemoteSecret)) (calls1 : list Call)
    (u : URL) (first : RemoteSecret) (rest : list RemoteSecret) :
  Lookup l sched cl matchable = (Returned (tokens, None), calls) ->
  items tokens = [] ->
  lookupRemoteSecrets l cl matchable = (Returned (remoteSecrets, None), calls1) ->
  items remoteSecrets = first :: rest ->
  RepoUrlParser l (RepoUrl matchable) = (Some u, None) ->
  let chosen := scopedRemoteSecret Values key (first :: rest) u first in
  ((forall target, In target (Status_Targets chosen) ->
                   ~ local_target (ObjNamespace matchable) target) ->
   LookupCredentials Values key l sched cl matchable
   = (Returned (None, Some missingTargetError), calls ++ calls1))
  /\ (forall k target,
        Status_Targets chosen !! k = Some target ->
        local_target (ObjNamespace matchable) target ->
        (forall j target', Status_Targets chosen !! j = Some target' ->
                           local_target (ObjNamespace matchable) target' -> j = k) ->
        getLocalNamespaceTargetIndex (Status_Targets chosen) (ObjNamespace matchable) = Z.of_nat k
        /\ snd (LookupCredentials Values key l sched cl matchable)
           = calls ++ calls1 ++ [CallGetSecret (ObjNamespace matchable) (SecretName target)]
        /\ exists out, fst (LookupCredentials Values key l sched cl matchable) = Returned out
                       /\ out <> (None, Some missingTargetError))
  /\ (None, Some missingTargetError) <> (@None Credentials, @None error)
  /\ missingTargetError <> accessTokenNotFoundError.
Proof.
  intros HL Hitems HR Hrss Hparse chosen.
  pose proof (LookupCredentials_no_token sched tokens calls HL Hitems) as HC.
  rewrite HR, Hrss, (lookupRemoteSecretSecret_chosen u first rest Hparse) in HC.
  fold chosen in HC.
  split; [|split; [|split; discriminate]].
  - intros Hnone.
    rewrite (lookupRemoteSecretSecret_missing_target u chosen Hparse Hnone) in HC.
    now rewrite app_nil_r in HC.
  - intros k target Hk Hloc Huniq.
    assert (Hfirst : forall j target', (j < k)%nat -> Status_Targets chosen !! j = Some target' ->
                                       ~ local_target (ObjNamespace matchable) target').
    { intros j t' Hj Ht' Hl'. specialize (Huniq j t' Ht' Hl'). lia. }
    destruct (lookupRemoteSecretSecret_local_target u chosen k target Hparse Hk Hloc Hfirst)
      as [Hidx Hres].
    split; [exact Hidx|]. rewrite Hres in HC. rewrite HC.
    destruct (Get_Secret cl (ObjNamespace matchable) (SecretName target));
      (split; [reflexivity | eexists; split; [reflexivity | discriminate]]).
Qed.

(** C10. When no token matches and the remote secrets resolve to a secret,
    [LookupCredentials] returns credentials and a nil error; the user name
    and the token are read from the data of the secret under the keys
    ["username"] and ["password"], and are empty when the key is absent. *)
Theorem LookupCredentials_from_secret (sched : list nat)
    (tokens : option (list SPIAccessToken)) (calls : list Call)
    (remoteSecrets : option (list RemoteSecret)) (calls1 calls2 : list Call)
    (secret : Secret) :
  Lookup l sched cl matchable = (Returned (tokens, None), calls) ->
  items tokens = [] ->
  lookupRemoteSecrets l cl matchable = (Returned (remoteSecrets, None), calls1) ->
  lookupRemoteSecretSecret Values key l cl matchable (items remoteSecrets)
  = (Returned (Some secret, None), calls2) ->
  exists credentials,
    LookupCredentials Values key l sched cl matchable
    = (Returned (Some credentials, None), calls ++ calls1 ++ calls2)
    /\ Cred_Username credentials = string_of_bytes (default [] (Data secret !! "username"))
    /\ Cred_Token credentials = string_of_bytes (default [] (Data secret !! "password"))
    /\ (Data secret !! "username" = None -> Cred_Username credentials = "")
    /\ (Data secret !! "password" = None -> Cred_Token credentials = "").
Proof.
  intros HL Hitems HR HS.
  rewrite (LookupCredentials_no_token sched tokens calls HL Hitems), HR, HS.
  eexists. split; [reflexivity|]. cbn [Cred_Username Cred_Token].
  unfold data, BasicAuthUsernameKey, BasicAuthPasswordKey.
  repeat split; intros ->; reflexivity.
Qed.

End CredentialsProperties.

Lemma LookupCredentials_falls_back_only_without_token_witness :
  Lookup sample.lookup [] (sample.client [sample.bob] [] ∅) sample.request
  = (Returned (Some [], None), [sample.listTokens])
  /\ lookupRemoteSecrets sample.lookup (sample.client [sample.bob] [] ∅) sample.request
     = (Returned (Some [], None), [sample.listRemoteSecrets])
  /\ LookupCredentials sample.Values sample.RepositoryAnnotation sample.lookup []
       (sample.client [sample.bob] [] ∅) sample.request
     = (Returned (None, None), [sample.listTokens] ++ [sample.listRemoteSecrets]).
Proof.
  assert (HL : Lookup sample.lookup [] (sample.client [sample.bob] [] ∅) sample.request
               = (Returned (Some [], None), [sample.listTokens]))
    by (vm_compute; reflexivity).
  assert (HR : lookupRemoteSecrets sample.lookup (sample.client [sample.bob] [] ∅) sample.request
               = (Returned (Some [], None), [sample.listRemoteSecrets]))
    by (vm_compute; reflexivity).
  split; [exact HL | split; [exact HR|]].
  exact (proj1 (proj2 (LookupCredentials_falls_back_only_without_token
                         sample.Values sample.RepositoryAnnotation sample.lookup
                         (sample.client [sample.bob] [] ∅) sample.request [])
                 (Some []) [sample.listTokens] (Some []) [sample.listRemoteSecrets]
                 HL eq_refl HR) eq_refl).
Defined.

Lemma LookupCredentials_uses_first_token_witness :
  Lookup sample.lookup [] (sample.client [sample.alice; sample.erin] [] ∅) sample.request
  = (Returned (Some [sample.refreshed sample.alice; sample.refreshed sample.erin], None),
     sample.listTokens
     :: flat_map (candidate_calls sample.lookup) [sample.alice; sample.erin])
  /\ TokenStorage sample.lookup (sample.refreshed sample.alice)
     = (Some {| Username := "alice"; AccessToken := "glpat-1" |}, None)
  /\ LookupCredentials sample.Values sample.RepositoryAnnotation sample.lookup []
       (sample.client [sample.alice; sample.erin] [] ∅) sample.request
     = (Returned (Some {| Cred_Username := "alice"; Cred_Token := "glpat-1" |}, None),
        (sample.listTokens
         :: flat_map (candidate_calls sample.lookup) [sample.alice; sample.erin])
        ++ [CallTokenStorageGet (sample.refreshed sample.alice)]).
Proof.
  assert (HL : Lookup sample.lookup [] (sample.client [sample.alice; sample.erin] [] ∅)
                 sample.request
               = (Returned (Some [sample.refreshed sample.alice; sample.refreshed sample.erin], None),
                  sample.listTokens
                  :: flat_map (candidate_calls sample.lookup) [sample.alice; sample.erin]))
    by (vm_compute; reflexivity).
  assert (HS : TokenStorage sample.lookup (sample.refreshed sample.alice)
               = (Some {| Username := "alice"; AccessToken := "glpat-1" |}, None))
    by reflexivity.
  split; [exact HL | split; [exact HS|]].
  destruct (LookupCredentials_uses_first_token
              sample.Values sample.RepositoryAnnotation sample.lookup
              (sample.client [sample.alice; sample.erin] [] ∅) sample.request []
              _ _ _ _ HL eq_refl) as (out & -> & _ & Hdata & _).
  now rewrite (Hdata _ HS).
Defined.

Lemma lookupRemoteSecretSecret_prefers_scoped_witness :
  RepoUrlParser sample.lookup (RepoUrl sample.request) = (Some sample.parsed, None)
  /\ scopedRemoteSecret sample.Values sample.RepositoryAnnotation
       [sample.unscoped; sample.scoped; sample.broken] sample.parsed sample.unscoped
     = sample.scoped
  /\ lookupRemoteSecretSecret sample.Values sample.RepositoryAnnotation sample.lookup
       (sample.client [] [] sample.secrets) sample.request
       [sample.unscoped; sample.scoped; sample.broken]
     = (Returned (Some {| Data := {[ "username" := list_byte_of_string "bot";
                                     "password" := list_byte_of_string "glpat-2" ]} |}, None),
        [CallGetSecret "ns" "secret-scoped"]).
Proof.
  assert (HP : RepoUrlParser sample.lookup (RepoUrl sample.request) = (Some sample.parsed, None))
    by (vm_compute; reflexivity).
  pose proof (lookupRemoteSecretSecret_prefers_scoped
                sample.Values sample.RepositoryAnnotation sample.lookup
                (sample.client [] [] sample.secrets) sample.request
                sample.parsed sample.unscoped [sample.scoped; sample.broken] HP) as W.
  cbv zeta in W. destruct W as (_ & Heq & Hfirst & _).
  assert (Hchosen : scopedRemoteSecret sample.Values sample.RepositoryAnnotation
                      [sample.unscoped; sample.scoped; sample.broken] sample.parsed sample.unscoped
                    = sample.scoped).
  { apply (Hfirst 1%nat sample.scoped eq_refl).
    - unfold scoped_to. vm_compute. right; left; reflexivity.
    - intros [|j] rs' Hj Hrs'; [|lia]. injection Hrs' as <-.
      unfold scoped_to. vm_compute. intros [H|[]]; discriminate. }
  split; [exact HP | split; [exact Hchosen|]].
  rewrite Heq, Hchosen. vm_compute. reflexivity.
Defined.

Lemma LookupCredentials_missing_target_witness :
  Lookup sample.lookup [] (sample.client [sample.bob] [sample.unscoped; sample.broken] sample.secrets)
    sample.request
  = (Returned (Some [], None), [sample.listTokens])
  /\ lookupRemoteSecrets sample.lookup
       (sample.client [sample.bob] [sample.unscoped; sample.broken] sample.secrets) sample.request
     = (Returned (Some [sample.unscoped; sample.broken], None), [sample.listRemoteSecrets])
  /\ scopedRemoteSecret sample.Values sample.RepositoryAnnotation
       [sample.unscoped; sample.broken] sample.parsed sample.unscoped = sample.broken
  /\ LookupCredentials sample.Values sample.RepositoryAnnotation sample.lookup []
       (sample.client [sample.bob] [sample.unscoped; sample.broken] sample.secrets) sample.request
     = (Returned (None, Some missingTargetError), [sample.listTokens] ++ [sample.listRemoteSecrets]).
Proof.
  assert (HL : Lookup sample.lookup []
                 (sample.client [sample.bob] [sample.unscoped; sample.broken] sample.secrets)
                 sample.request
               = (Returned (Some [], None), [sample.listTokens]))
    by (vm_compute; reflexivity).
  assert (HR : lookupRemoteSecrets sample.lookup
                 (sample.client [sample.bob] [sample.unscoped; sample.broken] sample.secrets)
                 sample.request
               = (Returned (Some [sample.unscoped; sample.broken], None), [sample.listRemoteSecrets]))
    by (vm_compute; reflexivity).
  assert (HP : RepoUrlParser sample.lookup (RepoUrl sample.request) = (Some sample.parsed, None))
    by (vm_compute; reflexivity).
  assert (HC : scopedRemoteSecret sample.Values sample.RepositoryAnnotation
                 [sample.unscoped; sample.broken] sample.parsed sample.unscoped = sample.broken)
    by (vm_compute; reflexivity).
  split; [exact HL | split; [exact HR | split; [exact HC|]]].
  apply (LookupCredentials_missing_target
           sample.Values sample.RepositoryAnnotation sample.lookup
           (sample.client [sample.bob] [sample.unscoped; sample.broken] sample.secrets)
           sample.request [] _ _ _ _ sample.parsed sample.unscoped [sample.broken]
           HL eq_refl HR eq_refl HP).
  rewrite HC. intros target [<-|[<-|[]]] (Hurl & Herr & _); discriminate.
Defined.

Lemma LookupCredentials_from_secret_witness :
  Lookup sample.lookup [] (sample.client [sample.bob] [sample.unscoped] sample.secrets)
    sample.request
  = (Returned (Some [], None), [sample.listTokens])
  /\ lookupRemoteSecrets sample.lookup
       (sample.client [sample.bob] [sample.unscoped] sample.secrets) sample.request
     = (Returned (Some [sample.unscoped], None), [sample.listRemoteSecrets])
  /\ lookupRemoteSecretSecret sample.Values sample.RepositoryAnnotation sample.lookup
       (sample.client [sample.bob] [sample.unscoped] sample.secrets) sample.request
       [sample.unscoped]
     = (Returned (Some {| Data := {[ "password" := list_byte_of_string "glpat-3" ]} |}, None),
        [CallGetSecret "ns" "secret-unscoped"])
  /\ LookupCredentials sample.Values sample.RepositoryAnnotation sample.lookup []
       (sample.client [sample.bob] [sample.unscoped] sample.secrets) sample.request
     = (Returned (Some {| Cred_Username := ""; Cred_Token := "glpat-3" |}, None),
        [sample.listTokens] ++ [sample.listRemoteSecrets]
        ++ [CallGetSecret "ns" "secret-unscoped"]).
Proof.
  assert (HL : Lookup sample.lookup []
                 (sample.client [sample.bob] [sample.unscoped] sample.secrets) sample.request
               = (Returned (Some [], None), [sample.listTokens]))
    by (vm_compute; reflexivity).
  assert (HR : lookupRemoteSecrets sample.lookup
                 (sample.client [sample.bob] [sample.unscoped] sample.secrets) sample.request
               = (Returned (Some [sample.unscoped], None), [sample.listRemoteSecrets]))
    by (vm_compute; reflexivity).
  assert (HS : lookupRemoteSecretSecret sample.Values sample.RepositoryAnnotation sample.lookup
                 (sample.client [sample.bob] [sample.unscoped] sample.secrets) sample.request
                 [sample.unscoped]
               = (Returned (Some {| Data := {[ "password" := list_byte_of_string "glpat-3" ]} |},
                            None),
                  [CallGetSecret "ns" "secret-unscoped"]))
    by (vm_compute; reflexivity).
  split; [exact HL | split; [exact HR | split; [exact HS|]]].
  destruct (LookupCredentials_from_secret
              sample.Values sample.RepositoryAnnotation sample.lookup
              (sample.client [sample.bob] [sample.unscoped] sample.secrets) sample.request []
              _ _ _ _ _ _ HL eq_refl HR HS) as ([username token] & -> & _ & Htoken & Huser & _).
  cbn [Cred_Username Cred_Token] in Htoken, Huser.
  rewrite (Huser eq_refl), Htoken. reflexivity.
Defined.

(** ** The GitLab provider *)

Section ProviderProperties.
Variable url_Parse : string -> error + URL.
Variable Values : string -> list string.
Variable key : string.
Variable Error_ : error -> string.
Variable g : Gitlab.

Lemma checkPrivateRepoAccess_first_call (sched : list nat) (cl : Client)
    (accessCheck : SPIAccessCheck) :
  exists calls,
    snd (checkPrivateRepoAccess Values key Error_ g sched cl accessCheck)
    = CallParseOwnerAndProject (Spec_RepoUrl accessCheck) :: calls.
Proof.
  unfold checkPrivateRepoAccess. cbn [bind call].
  destruct (let '(owner, name, err) := repoUrlMatcher g (Spec_RepoUrl accessCheck) in _)
    as [out calls]. now exists calls.
Qed.

(** C8. When the request can be made and the HTTP client answers, the public
    check makes one call: a GET of the repository URL with an empty header.
    On status 200 the access check returns accessible and public, and that
    call is the only one: the private check, which starts by parsing owner
    and project from the URL, is not made. On any other status, 404 or not,
    the public check yields false and no error, and the access check goes on
    with the private check, whose outcome it returns. *)
Theorem CheckRepositoryAccess_public_probe (sched : list nat) (cl : Client)
    (accessCheck : SPIAccessCheck) (u : URL) (resp : Response) :
  url_Parse (Spec_RepoUrl accessCheck) = inr u ->
  httpClient g {| Method := "GET"; Request_URL := u; Header := [] |} = (Some resp, None) ->
  let probe := CallHttpDo {| Method := "GET"; Request_URL := u; Header := [] |} in
  checkPublicRepoAccess url_Parse g accessCheck
  = (Returned (StatusCode resp =? 200, None), [probe])
  /\ (StatusCode resp = 200 ->
      CheckRepositoryAccess url_Parse Values key Error_ g sched cl accessCheck
      = (Returned (Some {| Accessible := true;
                           Accessibility := SPIAccessCheckAccessibilityPublic;
                           Type_Repo := SPIRepoTypeGit;
                           ServiceProvider := ServiceProviderTypeGitLab;
                           ErrorReason := SPIAccessCheckErrorNone;
                           ErrorMessage := "" |}, None),
         [probe]))
  /\ (StatusCode resp <> 200 ->
      checkPublicRepoAccess url_Parse g accessCheck = (Returned (false, None), [probe])
      /\ CheckRepositoryAccess url_Parse Values key Error_ g sched cl accessCheck
         = (fst (checkPrivateRepoAccess Values key Error_ g sched cl accessCheck),
            probe :: snd (checkPrivateRepoAccess Values key Error_ g sched cl accessCheck)))
  /\ (exists calls,
        snd (checkPrivateRepoAccess Values key Error_ g sched cl accessCheck)
        = CallParseOwnerAndProject (Spec_RepoUrl accessCheck) :: calls).
Proof.
  intros Hparse Hdo probe.
  assert (Hpub : checkPublicRepoAccess url_Parse g accessCheck
                 = (Returned (StatusCode resp =? 200, None), [probe])).
  { unfold checkPublicRepoAccess, http_NewRequestWithContext. rewrite Hparse.
    cbn [deref bind ret call]. unfold MethodGet. rewrite Hdo. cbn [deref bind ret].
    unfold StatusOK. now destruct (StatusCode resp =? 200). }
  split; [exact Hpub|]. split; [|split].
  - intros H200. unfold CheckRepositoryAccess. rewrite Hpub, H200. reflexivity.
  - intros Hne. apply Z.eqb_neq in Hne. rewrite Hne in Hpub. split; [exact Hpub|].
    unfold CheckRepositoryAccess. rewrite Hpub. cbn [bind].
    now destruct (checkPrivateRepoAccess Values key Error_ g sched cl accessCheck).
  - apply checkPrivateRepoAccess_first_call.
Qed.

End ProviderProperties.

Lemma CheckRepositoryAccess_public_probe_witness :
  sample.url_Parse "https://gitlab.com/org/public"
  = inr {| Scheme := "https"; Host := "gitlab.com"; Path := "/org/public" |}
  /\ httpClient sample.provider
       {| Method := "GET";
          Request_URL := {| Scheme := "https"; Host := "gitlab.com"; Path := "/org/public" |};
          Header := [] |}
     = (Some {| StatusCode := 200 |}, None)
  /\ CheckRepositoryAccess sample.url_Parse sample.Values sample.RepositoryAnnotation
       sample.Error_ sample.provider [] (sample.client [] [] ∅)
       (sample.check "https://gitlab.com/org/public")
     = (Returned (Some {| Accessible := true;
                          Accessibility := SPIAccessCheckAccessibilityPublic;
                          Type_Repo := SPIRepoTypeGit;
                          ServiceProvider := ServiceProviderTypeGitLab;
                          ErrorReason := SPIAccessCheckErrorNone;
                          ErrorMessage := "" |}, None),
        [CallHttpDo {| Method := "GET";
                       Request_URL := {| Scheme := "https"; Host := "gitlab.com";
                                         Path := "/org/public" |};
                       Header := [] |}]).
Proof.
  assert (HP : sample.url_Parse "https://gitlab.com/org/public"
               = inr {| Scheme := "https"; Host := "gitlab.com"; Path := "/org/public" |})
    by (vm_compute; reflexivity).
  assert (HD : httpClient sample.provider
                 {| Method := "GET";
                    Request_URL := {| Scheme := "https"; Host := "gitlab.com";
                                      Path := "/org/public" |};
                    Header := [] |}
               = (Some {| StatusCode := 200 |}, None))
    by (vm_compute; reflexivity).
  split; [exact HP | split; [exact HD|]].
  exact (proj1 (proj2 (CheckRepositoryAccess_public_probe
                         sample.url_Parse sample.Values sample.RepositoryAnnotation
                         sample.Error_ sample.provider [] (sample.client [] [] ∅)
                         (sample.check "https://gitlab.com/org/public") _ _ HP HD)) eq_refl).
Defined.

(** On 404 and on 418 alike, the access check goes on with the private check;
    here no credentials are found, and the status stays unknown. *)
Example CheckRepositoryAccess_not_public :
  forall repoUrl, In repoUrl ["https://gitlab.com/org/repo"; "https://gitlab.com/org/teapot"] ->
  exists req,
    CheckRepositoryAccess sample.url_Parse sample.Values sample.RepositoryAnnotation
      sample.Error_ sample.provider [] (sample.client [] [] ∅) (sample.check repoUrl)
    = (Returned (Some {| Accessible := false;
                         Accessibility := SPIAccessCheckAccessibilityUnknown;
                         Type_Repo := SPIRepoTypeGit;
                         ServiceProvider := ServiceProviderTypeGitLab;
                         ErrorReason := SPIAccessCheckErrorNone;
                         ErrorMessage := "" |}, None),
       [CallHttpDo req; CallParseOwnerAndProject repoUrl;
        sample.listTokens; sample.listRemoteSecrets]).
Proof.
  intros repoUrl [<-|[<-|[]]]; eexists; vm_compute; reflexivity.
Qed.

(** ** Scope validation *)

Section ValidationProperties.
Variable IsWrite : PermissionType -> bool.
Variable IsValidScope : string -> bool.
Variables ScopeReadUser ScopeReadRepository ScopeWriteRepository : string.
Variables ScopeReadRegistry ScopeWriteRegistry : string.

Lemma validateRequired_spec (required : list Permission) (ret_ : list error) :
  exists errs,
    validateRequired IsWrite required ret_ = ret_ ++ errs
    /\ Forall2 (answers IsWrite) (List.filter (refused IsWrite) required) errs.
Proof.
  revert ret_. induction required as [|p rest IH]; intros ret_.
  - exists []. split; [now rewrite app_nil_r | constructor].
  - cbn [validateRequired List.filter].
    unfold refused at 1, answers, user_write, supported_area.
    unfold PermissionAreaRepository, PermissionAreaRepositoryMetadata,
      PermissionAreaRegistry, PermissionAreaUser in *.
    destruct (String.eqb_spec (Area p) "repository") as [E1|E1];
      [rewrite E1; cbn; apply IH|].
    destruct (String.eqb_spec (Area p) "repository-metadata") as [E2|E2];
      [rewrite E2; cbn; apply IH|].
    destruct (String.eqb_spec (Area p) "registry") as [E3|E3];
      [rewrite E3; cbn; apply IH|].
    cbn [orb negb andb].
    destruct (String.eqb_spec (Area p) "user") as [E4|E4]; cbn [orb negb andb].
    + destruct (IsWrite (Type_ p)) eqn:EW; [|apply IH].
      destruct (IH (ret_ ++ [unsupportedUserWritePermissionError])) as (errs & -> & HF).
      exists (unsupportedUserWritePermissionError :: errs).
      split; [now rewrite <- app_assoc|].
      constructor; [|exact HF]. right. rewrite E4, EW. now split.
    + destruct (IH (ret_ ++ [fmt_Errorf "" unsupportedAreaError (": '" +:+ Area p +:+ "'")]))
        as (errs & -> & HF).
      eexists (_ :: errs). split; [now rewrite <- app_assoc|].
      constructor; [|exact HF]. left.
      repeat match goal with
             | H : Area p <> _ |- _ => apply String.eqb_neq in H; rewrite H; clear H
             end.
      now split.
Qed.

Lemma validateAdditionalScopes_spec (scopes : list string) (ret_ : list error) :
  exists errs,
    validateAdditionalScopes IsValidScope scopes ret_ = ret_ ++ errs
    /\ Forall2 (fun s e => e = fmt_Errorf "" unsupportedScopeError (": '" +:+ s +:+ "'"))
         (List.filter (fun s => negb (IsValidScope s)) scopes) errs.
Proof.
  revert ret_. induction scopes as [|s rest IH]; intros ret_.
  - exists []. split; [now rewrite app_nil_r | constructor].
  - cbn [validateAdditionalScopes List.filter].
    destruct (IsValidScope s); cbn [negb]; [apply IH|].
    destruct (IH (ret_ ++ [fmt_Errorf "" unsupportedScopeError (": '" +:+ s +:+ "'")]))
      as (errs & -> & HF).
    eexists (_ :: errs). split; [now rewrite <- app_assoc|].
    constructor; [reflexivity | exact HF].
Qed.

(** C9. [Validate] returns no error of its own, and a list of scope errors
    made of two parts. The first has one error for each required permission
    that is refused, in order: for a permission whose area is not repository,
    repository-metadata, registry or user, an error that wraps
    [unsupportedAreaError] and names the area; for a write permission on the
    user area, [unsupportedUserWritePermissionError]. The second has, for each
    additional scope that [IsValidScope] rejects, an error that wraps
    [unsupportedScopeError] and names the scope. The three errors differ, and
    the areas that are accepted are those that the translation table maps to
    a scope. *)
Theorem Validate_reports_unsupported (validated : Permissions) :
  exists permissionErrs scopeErrs,
    Validate IsWrite IsValidScope validated
    = ({| ScopeValidation := permissionErrs ++ scopeErrs |}, None)
    /\ Forall2 (answers IsWrite)
         (List.filter (refused IsWrite) (Required validated)) permissionErrs
    /\ Forall2 (fun s e => e = fmt_Errorf "" unsupportedScopeError (": '" +:+ s +:+ "'"))
         (List.filter (fun s => negb (IsValidScope s)) (AdditionalScopes validated)) scopeErrs
    /\ (forall p,
          translateToGitlabScopes IsWrite ScopeReadUser ScopeReadRepository ScopeWriteRepository
            ScopeReadRegistry ScopeWriteRegistry p = []
          <-> supported_area (Area p) = false)
    /\ unsupportedAreaError <> unsupportedUserWritePermissionError
    /\ unsupportedAreaError <> unsupportedScopeError
    /\ unsupportedScopeError <> unsupportedUserWritePermissionError.
Proof.
  destruct (validateRequired_spec (Required validated) []) as (errs1 & H1 & HF1).
  destruct (validateAdditionalScopes_spec (AdditionalScopes validated) errs1)
    as (errs2 & H2 & HF2).
  exists errs1, errs2. split; [|split; [exact HF1 | split; [exact HF2 | split]]].
  - unfold Validate. rewrite H1. cbn [app]. now rewrite H2.
  - intros p. unfold translateToGitlabScopes, supported_area.
    destruct (String.eqb (Area p) PermissionAreaRepository),
      (String.eqb (Area p) PermissionAreaRepositoryMetadata),
      (String.eqb (Area p) PermissionAreaRegistry),
      (String.eqb (Area p) PermissionAreaUser), (IsWrite (Type_ p)); cbn; split; congruence.
  - repeat split; discriminate.
Qed.

End ValidationProperties.

Example Validate_sample :
  Validate sample.IsWrite sample.IsValidScope
    {| Required := [ {| Type_ := "rw"; Area := "repository" |};
                     {| Type_ := "r"; Area := "webhooks" |};
                     {| Type_ := "r"; Area := "user" |};
                     {| Type_ := "w"; Area := "user" |} ];
       AdditionalScopes := ["api"; "admin"] |}
  = ({| ScopeValidation :=
          [ fmt_Errorf "" unsupportedAreaError ": 'webhooks'";
            unsupportedUserWritePermissionError;
            fmt_Errorf "" unsupportedScopeError ": 'admin'" ] |}, None).
Proof. reflexivity. Qed.

(** * Further properties of the code *)

(** ** [Lookup] under every schedule *)

Lemma length_omap_le {A B} (f : A -> option B) (l : list A) :
  (length (omap f l) <= length l)%nat.
Proof.
  induction l as [|x l IH]; [reflexivity|]. cbn. destruct (f x); cbn; lia.
Qed.

Lemma length_filter_le {A} (f : A -> bool) (l : list A) :
  (length (List.filter f l) <= length l)%nat.
Proof.
  induction l as [|x l IH]; [reflexivity|]. cbn. destruct (f x); cbn; lia.
Qed.

Section LookupSchedules.
Variable l : GenericLookup.
Variable matchable : Matchable.

(** X1. When the URL parses, the candidates are listed and no ready candidate
    fails, [Lookup] returns, under every schedule, no error and the tokens of
    the ready candidates that the filter accepts, each as [Ensure] left it,
    in the order of completion; so never more tokens than candidates. *)
Theorem Lookup_returns_every_match (sched : list nat) (cl : Client) (u : URL)
    (potentialMatches : list SPIAccessToken) :
  RepoUrlParser l (RepoUrl matchable) = (Some u, None) ->
  List_SPIAccessToken cl (ObjNamespace matchable)
    [(ServiceProviderTypeLabel, ServiceProviderType_ l); (ServiceProviderHostLabel, Host u)]
  = inr potentialMatches ->
  (forall t, In t potentialMatches -> ready t = true -> fails l matchable t = false) ->
  exists result calls,
    Lookup l sched cl matchable = (Returned (Some result, None), calls)
    /\ result ≡ₚ omap (candidate_match l matchable) (List.filter ready potentialMatches)
    /\ (length result <= length potentialMatches)%nat.
Proof.
  intros Hparse Hlist Hok.
  pose proof (Lookup_listed l matchable sched cl u potentialMatches Hparse Hlist) as HL.
  cbv zeta in HL.
  set (tasks := completion_order sched (List.filter ready potentialMatches)) in *.
  assert (HP : tasks ≡ₚ List.filter ready potentialMatches)
    by apply completion_order_Permutation.
  destruct (omap (candidate_error l matchable) tasks) as [|e errs] eqn:E.
  - exists (omap (candidate_match l matchable) tasks). eexists. split; [exact HL|]. split.
    + now rewrite HP.
    + rewrite HP. etransitivity; [apply length_omap_le | apply length_filter_le].
  - exfalso. assert (Hin : In e (omap (candidate_error l matchable) tasks))
      by (rewrite E; now left).
    apply In_omap in Hin as (t & Hin & He).
    apply (Permutation_in _ HP) in Hin. apply filter_In in Hin as [Hin Hr].
    specialize (Hok t Hin Hr). unfold fails in Hok. now rewrite He in Hok.
Qed.

(** X2. The schedule changes the order only: when [Lookup] returns under one
    schedule, it returns under every other one, with the same tokens up to
    order, an error in the one case exactly when in the other, and the same
    calls up to order. *)
Theorem Lookup_schedule_changes_order_only (sched1 sched2 : list nat) (cl : Client)
    (tokens1 : option (list SPIAccessToken)) (err1 : option error) (calls1 : list Call) :
  Lookup l sched1 cl matchable = (Returned (tokens1, err1), calls1) ->
  exists tokens2 err2 calls2,
    Lookup l sched2 cl matchable = (Returned (tokens2, err2), calls2)
    /\ items tokens1 ≡ₚ items tokens2
    /\ (err1 = None <-> err2 = None)
    /\ calls1 ≡ₚ calls2.
Proof.
  intros H1.
  destruct (RepoUrlParser l (RepoUrl matchable)) as [[u|] [perr|]] eqn:Hparse.
  1, 3: (unfold Lookup in *; rewrite Hparse in *; cbn in *;
         injection H1 as <- <- <-; eexists _, _, _;
         split; [reflexivity | split; [reflexivity | split; [tauto | reflexivity]]]).
  2: { unfold Lookup in H1; rewrite Hparse in H1; cbn in H1. discriminate. }
  destruct (List_SPIAccessToken cl (ObjNamespace matchable)
              [(ServiceProviderTypeLabel, ServiceProviderType_ l);
               (ServiceProviderHostLabel, Host u)]) as [lerr|potentialMatches] eqn:Hlist.
  - unfold Lookup in *; rewrite Hparse in *; cbn in *. rewrite Hlist in *. cbn in *.
    injection H1 as <- <- <-. eexists _, _, _.
    split; [reflexivity | split; [reflexivity | split; [tauto | reflexivity]]].
  - rewrite (Lookup_listed l matchable sched1 cl u potentialMatches Hparse Hlist) in H1.
    rewrite (Lookup_listed l matchable sched2 cl u potentialMatches Hparse Hlist).
    cbv zeta in *.
    set (tasks1 := completion_order sched1 (List.filter ready potentialMatches)) in *.
    set (tasks2 := completion_order sched2 (List.filter ready potentialMatches)) in *.
    assert (HP : tasks1 ≡ₚ tasks2).
    { unfold tasks1, tasks2. now rewrite !completion_order_Permutation. }
    assert (HE : omap (candidate_error l matchable) tasks1
                 ≡ₚ omap (candidate_error l matchable) tasks2) by now rewrite HP.
    assert (HC : flat_map (candidate_calls l) tasks1 ≡ₚ flat_map (candidate_calls l) tasks2)
      by now apply Permutation_flat_map.
    destruct (omap (candidate_error l matchable) tasks1) as [|e1 errs1];
      destruct (omap (candidate_error l matchable) tasks2) as [|e2 errs2];
      try (apply Permutation_nil in HE; discriminate);
      try (symmetry in HE; apply Permutation_nil in HE; discriminate);
      injection H1 as <- <- <-; eexists _, _, _; (split; [reflexivity|]);
      cbn [items default].
    + split; [now rewrite HP | split; [tauto | now constructor]].
    + split; [reflexivity | split; [split; discriminate | now constructor]].
Qed.

(** X3. When the URL parses and the candidates are listed, the calls of
    [Lookup] are the listing, first, and then one evaluation per ready
    candidate, in some order: [Ensure] on each ready candidate, and the token
    filter on the tokens for which [Ensure] raised no error, and on no
    other. *)
Theorem Lookup_evaluates_each_ready_candidate (sched : list nat) (cl : Client) (u : URL)
    (potentialMatches : list SPIAccessToken) :
  RepoUrlParser l (RepoUrl matchable) = (Some u, None) ->
  List_SPIAccessToken cl (ObjNamespace matchable)
    [(ServiceProviderTypeLabel, ServiceProviderType_ l); (ServiceProviderHostLabel, Host u)]
  = inr potentialMatches ->
  exists evaluations,
    snd (Lookup l sched cl matchable)
    = CallListTokens (ObjNamespace matchable)
        [(ServiceProviderTypeLabel, ServiceProviderType_ l); (ServiceProviderHostLabel, Host u)]
      :: evaluations
    /\ evaluations ≡ₚ flat_map (candidate_calls l) (List.filter ready potentialMatches)
    /\ (forall t, In (CallEnsure t) evaluations <-> In t potentialMatches /\ ready t = true)
    /\ (forall t', In (CallTokenFilter t') evaluations <->
                   exists t, In t potentialMatches /\ ready t = true
                             /\ MetadataCache l (MetadataProvider l) t = (t', None)).
Proof.
  intros Hparse Hlist.
  rewrite (Lookup_listed l matchable sched cl u potentialMatches Hparse Hlist). cbn [snd].
  eexists. split; [reflexivity|].
  assert (HP : flat_map (candidate_calls l)
                 (completion_order sched (List.filter ready potentialMatches))
               ≡ₚ flat_map (candidate_calls l) (List.filter ready potentialMatches))
    by apply Permutation_flat_map, completion_order_Permutation.
  split; [exact HP|].
  assert (Hmem : forall c,
             In c (flat_map (candidate_calls l)
                     (completion_order sched (List.filter ready potentialMatches)))
             <-> exists t, (In t potentialMatches /\ ready t = true)
                           /\ In c (candidate_calls l t)).
  { intros c. split.
    - intros Hin. apply (Permutation_in _ HP) in Hin.
      apply in_flat_map in Hin as (t & Ht & Hc). apply filter_In in Ht. eauto.
    - intros (t & Ht & Hc). apply (Permutation_in _ (Permutation_sym HP)).
      apply in_flat_map. exists t. split; [now apply filter_In | exact Hc]. }
  split.
  - intros t. rewrite Hmem. split.
    + intros (t0 & Ht0 & Hc). unfold candidate_calls in Hc.
      destruct (MetadataCache l (MetadataProvider l) t0) as [t' [err|]]; cbn in Hc.
      * destruct Hc as [[= ->]|[]]. exact Ht0.
      * destruct Hc as [[= ->]|[Hc|[]]]; [exact Ht0 | discriminate].
    + intros Ht. exists t. split; [exact Ht|]. unfold candidate_calls.
      destruct (MetadataCache l (MetadataProvider l) t) as [t' [err|]]; now left.
  - intros t'. rewrite Hmem. split.
    + intros (t0 & [Hin Hr] & Hc). exists t0. split; [exact Hin | split; [exact Hr|]].
      unfold candidate_calls in Hc.
      destruct (MetadataCache l (MetadataProvider l) t0) as [t1 [err|]]; cbn in Hc.
      * destruct Hc as [Hc|[]]; discriminate.
      * destruct Hc as [Hc|[[= ->]|[]]]; [discriminate | reflexivity].
    + intros (t & Hin & Hr & HM). exists t. split; [now split|].
      unfold candidate_calls. rewrite HM. right; now left.
Qed.

End LookupSchedules.

(** ** The target index *)

Lemma getLocalNamespaceTargetIndex_from_spec (targets : list TargetStatus)
    (namespace : string) (i : Z) :
  (getLocalNamespaceTargetIndex_from i targets namespace = -1
   /\ forall target, In target targets -> ~ local_target namespace target)
  \/ (exists k target,
        getLocalNamespaceTargetIndex_from i targets namespace = i + Z.of_nat k
        /\ targets !! k = Some target
        /\ local_target namespace target
        /\ forall j target', (j < k)%nat -> targets !! j = Some target' ->
                             ~ local_target namespace target').
Proof.
  revert i. induction targets as [|t rest IH]; intros i.
  - left. split; [reflexivity | intros ? []].
  - cbn [getLocalNamespaceTargetIndex_from].
    destruct (_ && _) eqn:E.
    + right. exists 0%nat, t. apply local_target_test in E.
      split; [lia | split; [reflexivity | split; [exact E | intros j t' Hj; lia]]].
    + assert (Hnot : ~ local_target namespace t).
      { intros Hl. apply local_target_test in Hl. congruence. }
      destruct (IH (i + 1)) as [[Hr Hnone]|(k & t' & Hr & Hk & Hl & Hfirst)].
      * left. split; [exact Hr|]. intros t' [<-|Hin]; [exact Hnot | now apply Hnone].
      * right. exists (S k), t'. split; [lia | split; [exact Hk | split; [exact Hl|]]].
        intros [|j] t'' Hj Ht''.
        -- injection Ht'' as <-. exact Hnot.
        -- apply (Hfirst j t''); [lia | exact Ht''].
Qed.

(** X8. [getLocalNamespaceTargetIndex] returns -1 or an index of the slice,
    never one out of range; -1 exactly when no target is local to the
    namespace; otherwise the index of the first local target, also when
    several targets are local. *)
Theorem getLocalNamespaceTargetIndex_first_local (targets : list TargetStatus)
    (namespace : string) :
  -1 <= getLocalNamespaceTargetIndex targets namespace < len targets
  /\ (getLocalNamespaceTargetIndex targets namespace = -1
      <-> forall target, In target targets -> ~ local_target namespace target)
  /\ (forall k, getLocalNamespaceTargetIndex targets namespace = Z.of_nat k ->
        exists target,
          targets !! k = Some target
          /\ local_target namespace target
          /\ forall j target', (j < k)%nat -> targets !! j = Some target' ->
                               ~ local_target namespace target').
Proof.
  unfold getLocalNamespaceTargetIndex, len.
  destruct (getLocalNamespaceTargetIndex_from_spec targets namespace 0)
    as [[Hr Hnone]|(k & t & Hr & Hk & Hl & Hfirst)]; rewrite Hr.
  - split; [lia | split; [tauto | intros k Hk; lia]].
  - assert (Hlt : (k < length targets)%nat) by (eapply lookup_lt_Some; eauto).
    split; [lia | split; [split|]].
    + lia.
    + intros Hnone. exfalso. apply (Hnone t); [|exact Hl].
      apply list_elem_of_In. eapply list_elem_of_lookup_2; eauto.
    + intros k' Hk'. assert (k' = k) as -> by lia. now exists t.
Qed.

(** ** The remote secrets *)

Section RemoteSecrets.
Variable Values : string -> list string.
Variable key : string.
Variable l : GenericLookup.
Variable cl : Client.
Variable matchable : Matchable.

Lemma filterRemoteSecrets_spec (potentialMatches matches : list RemoteSecret) :
  filterRemoteSecrets l matchable potentialMatches matches
  = (Returned (matches ++ List.filter (accepted l matchable) potentialMatches),
     match RemoteSecretFilter l with
     | None => []
     | Some _ => map CallRemoteSecretFilter potentialMatches
     end).
Proof.
  revert matches. induction potentialMatches as [|rs rest IH]; intros matches.
  - cbn. rewrite app_nil_r. now destruct (RemoteSecretFilter l).
  - cbn [filterRemoteSecrets List.filter map]. unfold accepted at 1.
    destruct (RemoteSecretFilter l) as [filter|] eqn:EF.
    + cbn [bind call]. destruct (filter matchable rs); rewrite IH; cbn;
        now rewrite <- ?app_assoc.
    + rewrite IH. now rewrite <- app_assoc.
Qed.

(** X6. When the URL parses and the remote secrets are listed,
    [lookupRemoteSecrets] returns the listed remote secrets that the filter
    accepts, in the order of the listing, and all of them when no filter is
    configured; it calls the filter once per listed remote secret, in that
    order, after the listing. *)
Theorem lookupRemoteSecrets_keeps_accepted (u : URL) (potentialMatches : list RemoteSecret) :
  RepoUrlParser l (RepoUrl matchable) = (Some u, None) ->
  List_RemoteSecret cl (ObjNamespace matchable) [(RSServiceProviderHostLabel, Host u)]
  = inr potentialMatches ->
  lookupRemoteSecrets l cl matchable
  = (Returned (Some (List.filter (accepted l matchable) potentialMatches), None),
     CallListRemoteSecrets (ObjNamespace matchable) [(RSServiceProviderHostLabel, Host u)]
     :: match RemoteSecretFilter l with
        | None => []
        | Some _ => map CallRemoteSecretFilter potentialMatches
        end)
  /\ (RemoteSecretFilter l = None ->
      List.filter (accepted l matchable) potentialMatches = potentialMatches).
Proof.
  intros Hparse Hlist. split.
  - unfold lookupRemoteSecrets. rewrite Hparse. cbn [deref bind ret call].
    rewrite Hlist, filterRemoteSecrets_spec. cbn. now rewrite app_nil_r.
  - intros HF. unfold accepted. rewrite HF. clear Hlist.
    induction potentialMatches as [|rs rest IH]; cbn; [reflexivity | now rewrite IH].
Qed.

(** X7. On a list of remote secrets that is not empty, and with a URL that
    parses, [lookupRemoteSecretSecret] returns a secret and no error, after
    one read of a secret, or no secret and an error, after at most one read:
    it does not panic, and the nil secret with a nil error is the answer to
    the empty list only. *)
Theorem lookupRemoteSecretSecret_secret_or_error (u : URL)
    (remoteSecrets : list RemoteSecret) :
  RepoUrlParser l (RepoUrl matchable) = (Some u, None) ->
  remoteSecrets <> [] ->
  (exists secret namespace name,
      lookupRemoteSecretSecret Values key l cl matchable remoteSecrets
      = (Returned (Some secret, None), [CallGetSecret namespace name])
      /\ Get_Secret cl namespace name = inr secret)
  \/ (exists err calls,
        lookupRemoteSecretSecret Values key l cl matchable remoteSecrets
        = (Returned (None, Some err), calls)
        /\ (length calls <= 1)%nat).
Proof.
  intros Hparse Hne. destruct remoteSecrets as [|first rest]; [congruence|].
  rewrite (lookupRemoteSecretSecret_chosen Values key l cl matchable u first rest Hparse).
  set (rs := scopedRemoteSecret Values key (first :: rest) u first).
  destruct (getLocalNamespaceTargetIndex_from_spec (Status_Targets rs) (ObjNamespace matchable) 0)
    as [[_ Hnone]|(k & t & _ & Hk & Hl & Hfirst)].
  - right. exists missingTargetError, [].
    rewrite (lookupRemoteSecretSecret_missing_target Values key l cl matchable u rs Hparse Hnone).
    split; [reflexivity | cbn; lia].
  - destruct (lookupRemoteSecretSecret_local_target Values key l cl matchable u rs k t
                Hparse Hk Hl Hfirst) as [_ ->].
    destruct (Get_Secret cl (ObjNamespace matchable) (SecretName t)) as [gerr|secret] eqn:EG.
    + right. eexists _, _. split; [reflexivity | cbn; lia].
    + left. exists secret, (ObjNamespace matchable), (SecretName t). now split.
Qed.

(** ** [LookupCredentials]: failures *)

(** X4. When the URL parser fails, [Lookup] and [LookupCredentials] make no
    call at all; [Lookup] returns an empty slice, not a nil one, and both
    return the error of [Lookup], which wraps that of the parser: the error
    messages of the remote-secret functions for the same failure are never
    returned by [LookupCredentials]. *)
Theorem LookupCredentials_parser_failure (sched : list nat) (repoUrl : option URL)
    (err : error) :
  RepoUrlParser l (RepoUrl matchable) = (repoUrl, Some err) ->
  Lookup l sched cl matchable
  = (Returned (Some [],
               Some (fmt_Errorf ("error parsing the host from repo URL "
                                 +:+ RepoUrl matchable +:+ ": ") err "")), [])
  /\ LookupCredentials Values key l sched cl matchable
     = (Returned (None,
                  Some (fmt_Errorf ("error parsing the host from repo URL "
                                    +:+ RepoUrl matchable +:+ ": ") err "")), []).
Proof.
  intros Hparse.
  assert (HL : Lookup l sched cl matchable
               = (Returned (Some [],
                            Some (fmt_Errorf ("error parsing the host from repo URL "
                                              +:+ RepoUrl matchable +:+ ": ") err "")), []))
    by (unfold Lookup; now rewrite Hparse).
  split; [exact HL|]. unfold LookupCredentials. now rewrite HL.
Qed.

(** X5. When [Lookup] returns an error, [LookupCredentials] returns nil
    credentials and that very error, not wrapped, and makes no further call:
    it does not fall back to the remote secrets, and it does not read token
    storage, also when some candidates did match. *)
Theorem LookupCredentials_no_fallback_on_error (sched : list nat)
    (tokens : option (list SPIAccessToken)) (err : error) (calls : list Call) :
  Lookup l sched cl matchable = (Returned (tokens, Some err), calls) ->
  LookupCredentials Values key l sched cl matchable = (Returned (None, Some err), calls)
  /\ (forall c, In c calls ->
        remote_secret_call c = false /\ forall t, c <> CallTokenStorageGet t).
Proof.
  intros HL. split.
  - unfold LookupCredentials. rewrite HL. cbn. now rewrite app_nil_r.
  - intros c Hin.
    pose proof (Lookup_calls l sched cl matchable c) as Hc. rewrite HL in Hc.
    split; [exact (Hc Hin)|]. intros t ->.
    destruct (RepoUrlParser l (RepoUrl matchable)) as [[u|] [perr|]] eqn:Hparse;
      try (unfold Lookup in HL; rewrite Hparse in HL; cbn in HL;
           injection HL as _ _ <-; destruct Hin).
    + destruct (List_SPIAccessToken cl (ObjNamespace matchable)
                  [(ServiceProviderTypeLabel, ServiceProviderType_ l);
                   (ServiceProviderHostLabel, Host u)]) as [lerr|potentialMatches] eqn:Hlist.
      * unfold Lookup in HL; rewrite Hparse in HL; cbn in HL. rewrite Hlist in HL. cbn in HL.
        injection HL as _ _ <-. destruct Hin as [Hin|[]]. discriminate.
      * rewrite (Lookup_listed l matchable sched cl u potentialMatches Hparse Hlist) in HL.
        injection HL as _ <-. destruct Hin as [Hin|Hin]; [discriminate|].
        apply in_flat_map in Hin as (t0 & _ & Hin). unfold candidate_calls in Hin.
        destruct (MetadataCache l (MetadataProvider l) t0) as [t' [e|]]; cbn in Hin;
          intuition discriminate.
    + unfold Lookup in HL; rewrite Hparse in HL; cbn in HL. discriminate.
Qed.

(** X9. [LookupCredentials] never returns credentials together with an
    error: whenever it returns, the credentials or the error are nil. *)
Theorem LookupCredentials_credentials_or_error (sched : list nat)
    (credentials : option Credentials) (err : option error) (calls : list Call) :
  LookupCredentials Values key l sched cl matchable = (Returned (credentials, err), calls) ->
  credentials = None \/ err = None.
Proof.
  intros H.
  destruct (Lookup l sched cl matchable) as [[[tokens [lerr|]]|why] calls0] eqn:HL.
  - unfold LookupCredentials in H. rewrite HL in H. cbn in H. injection H as <- _ _. now left.
  - destruct (items tokens) as [|tkn rest] eqn:Hitems.
    + rewrite (LookupCredentials_no_token Values key l cl matchable sched tokens calls0
                 HL Hitems) in H.
      destruct (lookupRemoteSecrets l cl matchable) as [[[rss [rerr|]]|why] calls1];
        try discriminate; [injection H as <- _ _; now left|].
      destruct (lookupRemoteSecretSecret Values key l cl matchable (items rss))
        as [[[[secret|] [serr|]]|why] calls2]; try discriminate;
        injection H as <- <- _; tauto.
    + rewrite (LookupCredentials_token Values key l cl matchable sched tokens calls0 tkn rest
                 HL Hitems) in H.
      destruct (TokenStorage l tkn) as [[d|] [serr|]]; injection H as <- <- _; tauto.
  - unfold LookupCredentials in H. rewrite HL in H. cbn in H. discriminate.
Qed.

(** X10. With the parser that the GitLab provider installs,
    [RepoUrlFromSchemalessString], [LookupCredentials] returns under every
    schedule and for every content of the object store: no slice is indexed
    out of range and no nil pointer is dereferenced. *)
Theorem LookupCredentials_returns_with_schemaless_parser
    (url_Parse : string -> error + URL) (sched : list nat) :
  RepoUrlParser l = RepoUrlFromSchemalessString url_Parse ->
  exists out calls,
    LookupCredentials Values key l sched cl matchable = (Returned out, calls).
Proof.
  intros Hparser. apply LookupCredentials_returns. rewrite Hparser.
  unfold RepoUrlFromSchemalessString, RepoUrlFromString.
  destruct (url_Parse _); discriminate.
Qed.

End RemoteSecrets.

(** X11. A string in which ["://"] occurs, at the start or further on, is
    parsed as it is: [RepoUrlFromSchemalessString] puts no ["https://"] in
    front of it, so a scheme that is given is kept. *)
Theorem RepoUrlFromSchemalessString_keeps_given_scheme
    (url_Parse : string -> error + URL) (s : string) :
  occurs_in "://" s ->
  RepoUrlFromSchemalessString url_Parse s = RepoUrlFromString url_Parse s
  /\ (forall u, url_Parse s = inr u -> RepoUrlFromSchemalessString url_Parse s = (Some u, None)).
Proof.
  intros Hocc.
  assert (E : RepoUrlFromSchemalessString url_Parse s = RepoUrlFromString url_Parse s).
  { unfold RepoUrlFromSchemalessString.
    destruct (Z.eqb_spec (strings_Index s "://") (-1)) as [E|E]; [|reflexivity].
    apply strings_Index_absent in E; [contradiction | discriminate]. }
  split; [exact E|]. intros u Hu. rewrite E. unfold RepoUrlFromString. now rewrite Hu.
Qed.

(** ** The GitLab provider: scopes *)

Lemma filter_nil_iff {A} (f : A -> bool) (l : list A) :
  List.filter f l = [] <-> forall x, In x l -> f x = false.
Proof.
  induction l as [|x l IH]; cbn; [tauto|].
  destruct (f x) eqn:E.
  - split; [discriminate | intros H; specialize (H x (or_introl eq_refl)); congruence].
  - rewrite IH. split; [intros H y [<-|Hy]; auto | intros H y Hy; apply H; now right].
Qed.

Section Scopes.
Variable IsWrite : PermissionType -> bool.
Variable IsValidScope : string -> bool.
Variables ScopeReadUser ScopeReadRepository ScopeWriteRepository : string.
Variables ScopeReadRegistry ScopeWriteRegistry : string.
Variable GetAllScopes : (Permission -> list string) -> Permissions -> list string.

(** X12. [Validate] reports as many scope errors as there are refused
    required permissions and rejected additional scopes together; so it
    reports none exactly when every required permission is in a supported
    area and is not a write on the user area, and every additional scope is
    valid. *)
Theorem Validate_accepts_iff (validated : Permissions) :
  length (ScopeValidation (fst (Validate IsWrite IsValidScope validated)))
  = (length (List.filter (refused IsWrite) (Required validated))
     + length (List.filter (fun s => negb (IsValidScope s)) (AdditionalScopes validated)))%nat
  /\ (ScopeValidation (fst (Validate IsWrite IsValidScope validated)) = []
      <-> (forall p, In p (Required validated) -> refused IsWrite p = false)
          /\ (forall s, In s (AdditionalScopes validated) -> IsValidScope s = true)).
Proof.
  destruct (validateRequired_spec IsWrite (Required validated) []) as (errs1 & H1 & HF1).
  destruct (validateAdditionalScopes_spec IsValidScope (AdditionalScopes validated) errs1)
    as (errs2 & H2 & HF2).
  assert (HV : ScopeValidation (fst (Validate IsWrite IsValidScope validated)) = errs1 ++ errs2).
  { unfold Validate. cbn [fst ScopeValidation]. rewrite H1. cbn [app]. exact H2. }
  apply List.Forall2_length in HF1, HF2.
  assert (Hlen : length (errs1 ++ errs2)
                 = (length (List.filter (refused IsWrite) (Required validated))
                    + length (List.filter (fun s => negb (IsValidScope s))
                                (AdditionalScopes validated)))%nat)
    by (rewrite length_app; lia).
  rewrite HV. split; [exact Hlen|].
  rewrite <- (filter_nil_iff (refused IsWrite)).
  assert (Hs : (forall s, In s (AdditionalScopes validated) -> IsValidScope s = true)
               <-> List.filter (fun s => negb (IsValidScope s)) (AdditionalScopes validated) = []).
  { rewrite filter_nil_iff. split; intros H s Hin; specialize (H s Hin);
      destruct (IsValidScope s); cbn in *; congruence. }
  rewrite Hs. split.
  - intros E. rewrite E in Hlen. cbn in Hlen.
    split; apply length_zero_iff_nil; lia.
  - intros [E1 E2]. rewrite E1, E2 in Hlen. now apply length_zero_iff_nil.
Qed.

(** X13. The translation table yields exactly one scope for a permission in
    a supported area and none otherwise; a permission that is not a write
    never yields a write scope; a permission on the user area yields the
    read-user scope whatever its type, so a write on the user area, which
    [Validate] refuses, is translated to a read. *)
Theorem translateToGitlabScopes_one_scope (p : Permission) :
  (supported_area (Area p) = true ->
   exists s, translateToGitlabScopes IsWrite ScopeReadUser ScopeReadRepository
               ScopeWriteRepository ScopeReadRegistry ScopeWriteRegistry p = [s])
  /\ (refused IsWrite p = false ->
      exists s, translateToGitlabScopes IsWrite ScopeReadUser ScopeReadRepository
                  ScopeWriteRepository ScopeReadRegistry ScopeWriteRegistry p = [s])
  /\ (IsWrite (Type_ p) = false ->
      forall s, In s (translateToGitlabScopes IsWrite ScopeReadUser ScopeReadRepository
                        ScopeWriteRepository ScopeReadRegistry ScopeWriteRegistry p) ->
                s = ScopeReadRepository \/ s = ScopeReadRegistry \/ s = ScopeReadUser)
  /\ (Area p = PermissionAreaUser ->
      translateToGitlabScopes IsWrite ScopeReadUser ScopeReadRepository
        ScopeWriteRepository ScopeReadRegistry ScopeWriteRegistry p = [ScopeReadUser]).
Proof.
  unfold translateToGitlabScopes, refused, supported_area, user_write.
  split; [|split; [|split]].
  - destruct (String.eqb (Area p) PermissionAreaRepository),
      (String.eqb (Area p) PermissionAreaRepositoryMetadata),
      (String.eqb (Area p) PermissionAreaRegistry),
      (String.eqb (Area p) PermissionAreaUser), (IsWrite (Type_ p)); cbn;
      intros; try discriminate; eauto.
  - destruct (String.eqb (Area p) PermissionAreaRepository),
      (String.eqb (Area p) PermissionAreaRepositoryMetadata),
      (String.eqb (Area p) PermissionAreaRegistry),
      (String.eqb (Area p) PermissionAreaUser), (IsWrite (Type_ p)); cbn;
      intros; try discriminate; eauto.
  - intros ->.
    destruct (String.eqb (Area p) PermissionAreaRepository),
      (String.eqb (Area p) PermissionAreaRepositoryMetadata),
      (String.eqb (Area p) PermissionAreaRegistry),
      (String.eqb (Area p) PermissionAreaUser); cbn; intros s Hs;
      try destruct Hs as [<-|[]]; try destruct Hs; tauto.
  - intros ->. reflexivity.
Qed.

(** X14. The scopes that [OAuthScopesFor] returns always contain the
    read-user scope; they are the scopes of [GetAllScopes], unchanged when
    these contain it already, and with it appended once at the end
    otherwise. *)
Theorem OAuthScopesFor_includes_read_user (permissions : Permissions) :
  let scopes :=
    GetAllScopes (translateToGitlabScopes IsWrite ScopeReadUser ScopeReadRepository
                    ScopeWriteRepository ScopeReadRegistry ScopeWriteRegistry) permissions in
  let result :=
    OAuthScopesFor IsWrite ScopeReadUser ScopeReadRepository ScopeWriteRepository
      ScopeReadRegistry ScopeWriteRegistry GetAllScopes permissions in
  In ScopeReadUser result
  /\ (In ScopeReadUser scopes -> result = scopes)
  /\ (~ In ScopeReadUser scopes -> result = scopes ++ [ScopeReadUser])
  /\ (forall s, In s scopes -> In s result).
Proof.
  intros scopes result. unfold result, OAuthScopesFor. fold scopes.
  destruct (slices_Contains scopes ScopeReadUser) eqn:E; cbn [negb].
  - apply slices_Contains_In in E. repeat split; tauto.
  - assert (Hn : ~ In ScopeReadUser scopes).
    { intros Hin. apply slices_Contains_In in Hin. congruence. }
    split; [apply in_or_app; right; now left|].
    split; [tauto | split; [reflexivity|]].
    intros s Hs. apply in_or_app. now left.
Qed.

End Scopes.

(** ** The GitLab provider: the access check *)

(** The calls of [LookupCredentials] are calls of the lookup engine. *)
Section CredentialsCalls.
Variable Values : string -> list string.
Variable key : string.
Variable l : GenericLookup.
Variable cl : Client.
Variable matchable : Matchable.

Lemma Lookup_lookup_calls (sched : list nat) (c : Call) :
  In c (snd (Lookup l sched cl matchable)) -> lookup_call c = true.
Proof.
  intros Hc.
  destruct (RepoUrlParser l (RepoUrl matchable)) as [[u|] [perr|]] eqn:Hparse;
    try (unfold Lookup in Hc; rewrite Hparse in Hc; cbn in Hc; now destruct Hc).
  destruct (List_SPIAccessToken cl (ObjNamespace matchable)
              [(ServiceProviderTypeLabel, ServiceProviderType_ l);
               (ServiceProviderHostLabel, Host u)]) as [lerr|potentialMatches] eqn:Hlist.
  - unfold Lookup in Hc; rewrite Hparse in Hc; cbn in Hc. rewrite Hlist in Hc.
    cbn in Hc. now destruct Hc as [<-|[]].
  - rewrite (Lookup_listed l matchable sched cl u potentialMatches Hparse Hlist) in Hc.
    cbn in Hc. destruct Hc as [<-|Hc]; [reflexivity|].
    apply in_flat_map in Hc as (t & _ & Hc). unfold candidate_calls in Hc.
    destruct (MetadataCache l (MetadataProvider l) t) as [t' [e|]]; cbn in Hc;
      intuition (subst; reflexivity).
Qed.

Lemma lookupRemoteSecrets_lookup_calls (c : Call) :
  In c (snd (lookupRemoteSecrets l cl matchable)) -> lookup_call c = true.
Proof.
  unfold lookupRemoteSecrets.
  destruct (RepoUrlParser l (RepoUrl matchable)) as [[u|] [perr|]];
    cbn [deref bind ret call panic snd]; try (cbn; tauto).
  destruct (List_RemoteSecret cl _ _) as [lerr|pm]; cbn.
  - now intros [<-|[]].
  - rewrite filterRemoteSecrets_spec. cbn. intros [<-|Hc]; [reflexivity|].
    rewrite app_nil_r in Hc. destruct (RemoteSecretFilter l); [|destruct Hc].
    now apply in_map_iff in Hc as (rs & <- & _).
Qed.

Lemma lookupRemoteSecretSecret_lookup_calls (remoteSecrets : list RemoteSecret) (c : Call) :
  In c (snd (lookupRemoteSecretSecret Values key l cl matchable remoteSecrets)) ->
  lookup_call c = true.
Proof.
  destruct remoteSecrets as [|first rest];
    [rewrite lookupRemoteSecretSecret_nil; intros []|].
  destruct (RepoUrlParser l (RepoUrl matchable)) as [[u|] [perr|]] eqn:Hparse.
  2: { rewrite (lookupRemoteSecretSecret_chosen Values key l cl matchable u first rest Hparse).
       set (rs := scopedRemoteSecret Values key (first :: rest) u first).
       destruct (getLocalNamespaceTargetIndex_from_spec (Status_Targets rs)
                   (ObjNamespace matchable) 0)
         as [[_ Hnone]|(k & t & _ & Hk & Hl & Hfirst)].
       - rewrite (lookupRemoteSecretSecret_missing_target Values key l cl matchable u rs
                    Hparse Hnone). cbn. tauto.
       - destruct (lookupRemoteSecretSecret_local_target Values key l cl matchable u rs k t
                     Hparse Hk Hl Hfirst) as [_ ->].
         cbn. now intros [<-|[]]. }
  all: unfold lookupRemoteSecretSecret;
    rewrite (proj2 (Z.eqb_neq _ 0)) by (unfold len; simpl length; lia);
    rewrite Hparse, ?index_head; cbn; tauto.
Qed.

Lemma LookupCredentials_lookup_calls (sched : list nat) (c : Call) :
  In c (snd (LookupCredentials Values key l sched cl matchable)) -> lookup_call c = true.
Proof.
  intros Hin. pose proof (Lookup_lookup_calls sched) as HLk.
  destruct (Lookup l sched cl matchable) as [[[tokens [lerr|]]|why] calls0] eqn:HL;
    cbn [snd] in HLk.
  - unfold LookupCredentials in Hin. rewrite HL in Hin. cbn in Hin.
    apply in_app_or in Hin as [Hin|[]]. now apply HLk.
  - destruct (items tokens) as [|tkn rest] eqn:Hitems.
    + rewrite (LookupCredentials_no_token Values key l cl matchable sched tokens calls0
                 HL Hitems) in Hin.
      pose proof lookupRemoteSecrets_lookup_calls as HR.
      destruct (lookupRemoteSecrets l cl matchable) as [[[rss [rerr|]]|why] calls1];
        cbn [snd] in HR.
      * apply in_app_or in Hin as [Hin|Hin]; [now apply HLk | now apply HR].
      * pose proof (lookupRemoteSecretSecret_lookup_calls (items rss)) as HS.
        destruct (lookupRemoteSecretSecret Values key l cl matchable (items rss))
          as [[[[secret|] [serr|]]|why] calls2]; cbn [snd] in HS, Hin;
          (apply in_app_or in Hin as [Hin|Hin]; [now apply HLk|];
           apply in_app_or in Hin as [Hin|Hin]; [now apply HR | now apply HS]).
      * apply in_app_or in Hin as [Hin|Hin]; [now apply HLk | now apply HR].
    + rewrite (LookupCredentials_token Values key l cl matchable sched tokens calls0 tkn rest
                 HL Hitems) in Hin.
      cbn [snd] in Hin. now apply in_app_or in Hin as [Hin|[<-|[]]]; [apply HLk|].
  - unfold LookupCredentials in Hin. rewrite HL in Hin. cbn in Hin. now apply HLk.
Qed.

End CredentialsCalls.

Section AccessCheck.
Variable url_Parse : string -> error + URL.
Variable Values : string -> list string.
Variable key : string.
Variable Error_ : error -> string.
Variable g : Gitlab.
Variable sched : list nat.
Variable cl : Client.
Variable accessCheck : SPIAccessCheck.


(** X15. The private check never returns an error and never a nil status:
    every failure is a reason in the status. The status is of a Git
    repository on GitLab, is never classified as public, is not accessible
    and of unknown accessibility whenever it carries a reason, and carries no
    reason and no message whenever it is accessible. *)
Theorem checkPrivateRepoAccess_reports_in_status
    (out : option SPIAccessCheckStatus * option error) (calls : list Call) :
  checkPrivateRepoAccess Values key Error_ g sched cl accessCheck = (Returned out, calls) ->
  exists status,
    out = (Some status, None)
    /\ Type_Repo status = SPIRepoTypeGit
    /\ ServiceProvider status = ServiceProviderTypeGitLab
    /\ Accessibility status <> SPIAccessCheckAccessibilityPublic
    /\ (ErrorReason status <> SPIAccessCheckErrorNone ->
        Accessible status = false
        /\ Accessibility status = SPIAccessCheckAccessibilityUnknown)
    /\ (Accessible status = true ->
        ErrorReason status = SPIAccessCheckErrorNone /\ ErrorMessage status = "").
Proof.
  unfold checkPrivateRepoAccess, accessibleStatus, preserveError.
  cbn [bind call ret].
  destruct (repoUrlMatcher g (Spec_RepoUrl accessCheck)) as [[owner name] [perr|]].
  { cbn. intros [= <- _]. eexists. split; [reflexivity|]. cbn. repeat split; congruence. }
  destruct (LookupCredentials Values key (lookup g) sched cl
              (Matchable_of_SPIAccessCheck accessCheck))
    as [[[[credentials|] [lerr|]]|why] lcalls]; cbn; try discriminate;
    try (intros [= <- _]; eexists; split; [reflexivity|]; cbn; repeat split; congruence).
  destruct (glClientBuilder g credentials) as [[gitlabClient|] [berr|]]; cbn;
    try discriminate;
    try (intros [= <- _]; eexists; split; [reflexivity|]; cbn; repeat split; congruence).
  destruct (Projects_GetProject gitlabClient (owner +:+ "/" +:+ name))
    as [[[project|] [response|]] [gerr|]]; cbn;
    repeat match goal with
           | |- context [if ?b then _ else _] => destruct b; cbn
           end;
    try discriminate;
    intros [= <- _]; eexists; (split; [reflexivity|]); cbn; repeat split; congruence.
Qed.


(** X17. The private check builds a GitLab client only with the credentials
    that [LookupCredentials] returned without an error, after owner and
    project were parsed from the URL; without credentials, or with a lookup
    that fails, no client is built and no project is read. *)
Theorem checkPrivateRepoAccess_client_needs_credentials (c : Call) :
  In c (snd (checkPrivateRepoAccess Values key Error_ g sched cl accessCheck)) ->
  (forall credentials, c = CallCreateAuthenticatedClient credentials ->
     fst (LookupCredentials Values key (lookup g) sched cl
            (Matchable_of_SPIAccessCheck accessCheck))
     = Returned (Some credentials, None)
     /\ snd (repoUrlMatcher g (Spec_RepoUrl accessCheck)) = None)
  /\ (forall pid, c = CallGetProject pid ->
        exists credentials gitlabClient,
          fst (LookupCredentials Values key (lookup g) sched cl
                 (Matchable_of_SPIAccessCheck accessCheck))
          = Returned (Some credentials, None)
          /\ glClientBuilder g credentials = (Some gitlabClient, None)).
Proof.
  assert (HLC : forall c', In c' (snd (LookupCredentials Values key (lookup g) sched cl
                                         (Matchable_of_SPIAccessCheck accessCheck))) ->
                           (forall x, c' <> CallCreateAuthenticatedClient x)
                           /\ (forall x, c' <> CallGetProject x)).
  { intros c' Hin.
    pose proof (LookupCredentials_lookup_calls Values key (lookup g) cl
                  (Matchable_of_SPIAccessCheck accessCheck) sched c' Hin) as Hk.
    split; intros x ->; discriminate. }
  unfold checkPrivateRepoAccess, accessibleStatus, preserveError.
  cbn [bind call ret].
  destruct (repoUrlMatcher g (Spec_RepoUrl accessCheck)) as [[owner name] [perr|]].
  { cbn. intros [<-|[]]. split; intros; discriminate. }
  destruct (LookupCredentials Values key (lookup g) sched cl
              (Matchable_of_SPIAccessCheck accessCheck))
    as [[[[credentials|] [lerr|]]|why] lcalls]; cbn [fst snd] in *; cbn;
    try (intros [<-|Hin]; [split; intros; discriminate|];
         rewrite ?app_nil_r in Hin; destruct (HLC c Hin) as [H1 H2];
         split; intros x ->; [destruct (H1 x eq_refl) | destruct (H2 x eq_refl)]).
  destruct (glClientBuilder g credentials) as [[gitlabClient|] [berr|]] eqn:HB; cbn;
    try (intros [<-|Hin]; [split; intros; discriminate|];
         apply in_app_or in Hin as [Hin|[<-|[]]];
         [destruct (HLC c Hin) as [H1 H2];
          split; intros x ->; [destruct (H1 x eq_refl) | destruct (H2 x eq_refl)]
         | split; [intros x [= <-]; now split | intros; discriminate]]).
  destruct (Projects_GetProject gitlabClient (owner +:+ "/" +:+ name))
    as [[[project|] [response|]] [gerr|]]; cbn;
    repeat match goal with
           | |- context [if ?b then _ else _] => destruct b; cbn
           end;
    (intros [<-|Hin]; [split; intros; discriminate|];
     apply in_app_or in Hin as [Hin|[<-|[<-|[]]]];
     [destruct (HLC c Hin) as [H1 H2];
      split; intros x ->; [destruct (H1 x eq_refl) | destruct (H2 x eq_refl)]
     | split; [intros x [= <-]; now split | intros; discriminate]
     | split; [intros; discriminate | intros x _; eauto]]).
Qed.

End AccessCheck.

(** ** Package [gitfile] *)

Section GitFileProperties.
Variable url_Parse : string -> error + URL.
Variable CanonicalMIMEHeaderKey : string -> string.
Variable detect : string -> string -> string -> gmap string string -> string * option error.
Variable Do : Request -> option gitfile.FileResponse * option error.
Variable k8sClient : Client.
Variables namespace secret repoUrl filepath ref : string.

Lemma buildAuthHeader_empty (tokenSecret : Secret) :
  Get_Secret k8sClient namespace secret = inr tokenSecret ->
  Data tokenSecret = ∅ ->
  gitfile.buildAuthHeader k8sClient namespace secret
  = (Returned (None, Some gitfile.secretDataEmptyError), [gitfile.FileGetSecret namespace secret]).
Proof.
  intros HG HE. unfold gitfile.buildAuthHeader. cbn [bind call]. rewrite HG, HE.
  rewrite map_size_empty. reflexivity.
Qed.

Lemma buildAuthHeader_data (tokenSecret : Secret) :
  Get_Secret k8sClient namespace secret = inr tokenSecret ->
  Data tokenSecret <> ∅ ->
  gitfile.buildAuthHeader k8sClient namespace secret
  = (Returned (Some {[ "Authorization" :=
                         "Bearer " +:+ string_of_bytes (default [] (Data tokenSecret !! "password")) ]},
               None),
     [gitfile.FileGetSecret namespace secret]).
Proof.
  intros HG HE. unfold gitfile.buildAuthHeader. cbn [bind call]. rewrite HG.
  apply map_size_non_empty_iff in HE.
  replace (Z.of_nat (size (Data tokenSecret)) >? 0) with true
    by (symmetry; rewrite Z.gtb_ltb; apply Z.ltb_lt; lia).
  reflexivity.
Qed.

(** X18. [buildAuthHeader] on a secret that was read: with empty data it
    fails with [secretDataEmptyError]; with data it returns one header,
    [Authorization], whose value is ["Bearer "] followed by the data under
    the key ["password"], and, when the data has no such key, the value is
    ["Bearer "] alone, with no error. *)
Theorem buildAuthHeader_bearer (tokenSecret : Secret) :
  Get_Secret k8sClient namespace secret = inr tokenSecret ->
  (Data tokenSecret = ∅ ->
   fst (gitfile.buildAuthHeader k8sClient namespace secret)
   = Returned (None, Some gitfile.secretDataEmptyError))
  /\ (Data tokenSecret <> ∅ ->
      exists authHeaders,
        fst (gitfile.buildAuthHeader k8sClient namespace secret)
        = Returned (Some authHeaders, None)
        /\ map_to_list authHeaders
           = [("Authorization",
               "Bearer " +:+ string_of_bytes (default [] (Data tokenSecret !! "password")))]
        /\ (Data tokenSecret !! "password" = None ->
            authHeaders !! "Authorization" = Some "Bearer ")).
Proof.
  intros HG. split.
  - intros HE. now rewrite (buildAuthHeader_empty tokenSecret HG HE).
  - intros HE. rewrite (buildAuthHeader_data tokenSecret HG HE).
    eexists. split; [reflexivity|]. split; [apply map_to_list_singleton|].
    intros ->. now rewrite lookup_singleton_eq.
Qed.

(** [GetFileContents] once the secret has given the header. *)
Lemma GetFileContents_with_header (tokenSecret : Secret) :
  Get_Secret k8sClient namespace secret = inr tokenSecret ->
  Data tokenSecret <> ∅ ->
  let bearer := "Bearer " +:+ string_of_bytes (default [] (Data tokenSecret !! "password")) in
  let authHeaders : gmap string string := {[ "Authorization" := bearer ]} in
  let before := [gitfile.FileGetSecret namespace secret;
                 gitfile.FileDetect repoUrl filepath ref authHeaders] in
  gitfile.GetFileContents url_Parse CanonicalMIMEHeaderKey detect Do
    k8sClient namespace secret repoUrl filepath ref
  = match detect repoUrl filepath ref authHeaders with
    | (_, Some err) =>
        (Returned (None, Some (fmt_Errorf "error detecting file download URL: " err "")), before)
    | (fileUrl, None) =>
        match url_Parse fileUrl with
        | inl _ => (Panicked "nil pointer dereference", before)
        | inr u =>
            let req := {| Method := "GET"; Request_URL := u;
                          Header := [(CanonicalMIMEHeaderKey "Authorization", bearer)] |} in
            match Do req with
            | (_, Some err) =>
                (Returned (None, Some (fmt_Errorf "error reading file content: " err "")),
                 before ++ [gitfile.FileDo req])
            | (Some response, None) =>
                (Returned (Some (gitfile.File_Body response), None),
                 before ++ [gitfile.FileDo req])
            | (None, None) => (Panicked "nil pointer dereference", before ++ [gitfile.FileDo req])
            end
        end
    end.
Proof.
  intros HG HE bearer authHeaders before. unfold gitfile.GetFileContents.
  rewrite (buildAuthHeader_data tokenSecret HG HE). fold bearer. fold authHeaders.
  cbn [bind ret call from_option id].
  destruct (detect repoUrl filepath ref authHeaders) as [fileUrl [derr|]]; [reflexivity|].
  unfold http_NewRequestWithContext.
  unfold authHeaders at 1. rewrite map_to_list_singleton.
  destruct (url_Parse fileUrl) as [perr|u]; [reflexivity|].
  cbn [gitfile.addHeaders deref bind ret call app Method Request_URL Header].
  destruct (Do _) as [[response|] [rerr|]]; reflexivity.
Qed.

(** X19. Every call that [GetFileContents] makes after the read of the
    secret carries the bearer token of that secret: [detect] is called only
    when the secret was read and has data, with the one [Authorization]
    header; and an HTTP request is sent only when, moreover, [detect] gave a
    URL that parses, and it is a GET of that URL with that header alone. *)
Theorem GetFileContents_sends_bearer (c : gitfile.FileCall) :
  In c (snd (gitfile.GetFileContents url_Parse CanonicalMIMEHeaderKey detect Do
               k8sClient namespace secret repoUrl filepath ref)) ->
  (forall r f rf authHeaders, c = gitfile.FileDetect r f rf authHeaders ->
     exists tokenSecret,
       Get_Secret k8sClient namespace secret = inr tokenSecret
       /\ Data tokenSecret <> ∅
       /\ authHeaders
          = {[ "Authorization" :=
                 "Bearer " +:+ string_of_bytes (default [] (Data tokenSecret !! "password")) ]})
  /\ (forall req, c = gitfile.FileDo req ->
        exists tokenSecret authHeaders fileUrl u,
          Get_Secret k8sClient namespace secret = inr tokenSecret
          /\ Data tokenSecret <> ∅
          /\ authHeaders
             = {[ "Authorization" :=
                    "Bearer " +:+ string_of_bytes (default [] (Data tokenSecret !! "password")) ]}
          /\ detect repoUrl filepath ref authHeaders = (fileUrl, None)
          /\ url_Parse fileUrl = inr u
          /\ req = {| Method := "GET"; Request_URL := u;
                      Header := [(CanonicalMIMEHeaderKey "Authorization",
                                  "Bearer " +:+ string_of_bytes
                                                  (default [] (Data tokenSecret !! "password")))] |}).
Proof.
  destruct (Get_Secret k8sClient namespace secret) as [gerr|tokenSecret] eqn:HG.
  { unfold gitfile.GetFileContents, gitfile.buildAuthHeader. cbn [bind call]. rewrite HG.
    cbn. intros [<-|[]]. split; intros; discriminate. }
  destruct (decide (Data tokenSecret = ∅)) as [HE|HE].
  { unfold gitfile.GetFileContents.
    rewrite (buildAuthHeader_empty tokenSecret HG HE). cbn.
    intros [<-|[]]. split; intros; discriminate. }
  rewrite (GetFileContents_with_header tokenSecret HG HE). cbv zeta.
  set (bearer := "Bearer " +:+ string_of_bytes (default [] (Data tokenSecret !! "password"))).
  assert (HDet : forall r f rf h,
             gitfile.FileDetect repoUrl filepath ref {[ "Authorization" := bearer ]}
             = gitfile.FileDetect r f rf h ->
             exists ts : Secret,
               @inr error Secret tokenSecret = inr ts /\ Data ts <> ∅
               /\ h = {[ "Authorization" :=
                           "Bearer " +:+ string_of_bytes (default [] (Data ts !! "password")) ]}).
  { intros r f rf h [= _ _ _ <-]. now exists tokenSecret. }
  destruct (detect repoUrl filepath ref {[ "Authorization" := bearer ]})
    as [fileUrl [derr|]] eqn:HD.
  { cbn. intros [<-|[<-|[]]]; (split; [|intros; discriminate]);
      [intros; discriminate | exact HDet]. }
  destruct (url_Parse fileUrl) as [perr|u] eqn:HU.
  { cbn. intros [<-|[<-|[]]]; (split; [|intros; discriminate]);
      [intros; discriminate | exact HDet]. }
  cbv zeta.
  assert (G : In c [gitfile.FileGetSecret namespace secret;
                    gitfile.FileDetect repoUrl filepath ref {[ "Authorization" := bearer ]};
                    gitfile.FileDo {| Method := "GET"; Request_URL := u;
                                      Header := [(CanonicalMIMEHeaderKey "Authorization", bearer)] |}]
              -> (forall r f rf h, c = gitfile.FileDetect r f rf h ->
                    exists ts : Secret,
                      @inr error Secret tokenSecret = inr ts /\ Data ts <> ∅
                      /\ h = {[ "Authorization" :=
                                  "Bearer " +:+ string_of_bytes
                                                  (default [] (Data ts !! "password")) ]})
                 /\ (forall req, c = gitfile.FileDo req ->
                       exists (ts : Secret) (h : gmap string string) (fileUrl0 : string) (u0 : URL),
                         @inr error Secret tokenSecret = inr ts /\ Data ts <> ∅
                         /\ h = {[ "Authorization" :=
                                     "Bearer " +:+ string_of_bytes
                                                     (default [] (Data ts !! "password")) ]}
                         /\ detect repoUrl filepath ref h = (fileUrl0, None)
                         /\ url_Parse fileUrl0 = inr u0
                         /\ req = {| Method := "GET"; Request_URL := u0;
                                     Header := [(CanonicalMIMEHeaderKey "Authorization",
                                                 "Bearer " +:+ string_of_bytes
                                                                 (default [] (Data ts !! "password")))] |})).
  { intros [<-|[<-|[<-|[]]]].
    - split; intros; discriminate.
    - split; [exact HDet | intros; discriminate].
    - split; [intros; discriminate|]. intros req [= <-].
      exists tokenSecret, {[ "Authorization" := bearer ]}, fileUrl, u. now repeat split. }
  destruct (Do _) as [[response|] [rerr|]]; cbn [snd app]; exact G.
Qed.

(** X20. [GetFileContents] does not look at the status code: when the secret
    has data, [detect] gives a URL that parses and the HTTP client answers,
    the body of the response is returned with no error, whatever the status
    of the response. *)
Theorem GetFileContents_ignores_status (tokenSecret : Secret) (fileUrl : string) (u : URL)
    (response : gitfile.FileResponse) :
  Get_Secret k8sClient namespace secret = inr tokenSecret ->
  Data tokenSecret <> ∅ ->
  let bearer := "Bearer " +:+ string_of_bytes (default [] (Data tokenSecret !! "password")) in
  detect repoUrl filepath ref {[ "Authorization" := bearer ]} = (fileUrl, None) ->
  url_Parse fileUrl = inr u ->
  Do {| Method := "GET"; Request_URL := u;
        Header := [(CanonicalMIMEHeaderKey "Authorization", bearer)] |}
  = (Some response, None) ->
  fst (gitfile.GetFileContents url_Parse CanonicalMIMEHeaderKey detect Do
         k8sClient namespace secret repoUrl filepath ref)
  = Returned (Some (gitfile.File_Body response), None).
Proof.
  intros HG HE bearer HD HU HR.
  rewrite (GetFileContents_with_header tokenSecret HG HE). cbv zeta. fold bearer.
  now rewrite HD, HU, HR.
Qed.

(** X21. [GetFileContents] drops the error of [http.NewRequestWithContext]:
    when the secret has data and [detect] gives, without an error, a URL that
    does not parse, the request is nil and [GetFileContents] panics on it,
    after the calls to the secret and to [detect] and before any HTTP
    request. *)
Theorem GetFileContents_panics_on_unparsable_url (tokenSecret : Secret) (fileUrl : string)
    (cause : error) :
  Get_Secret k8sClient namespace secret = inr tokenSecret ->
  Data tokenSecret <> ∅ ->
  let bearer := "Bearer " +:+ string_of_bytes (default [] (Data tokenSecret !! "password")) in
  detect repoUrl filepath ref {[ "Authorization" := bearer ]} = (fileUrl, None) ->
  url_Parse fileUrl = inl cause ->
  gitfile.GetFileContents url_Parse CanonicalMIMEHeaderKey detect Do
    k8sClient namespace secret repoUrl filepath ref
  = (Panicked "nil pointer dereference",
     [gitfile.FileGetSecret namespace secret;
      gitfile.FileDetect repoUrl filepath ref {[ "Authorization" := bearer ]}]).
Proof.
  intros HG HE bearer HD HU.
  rewrite (GetFileContents_with_header tokenSecret HG HE). cbv zeta. fold bearer.
  now rewrite HD, HU.
Qed.

(** X22. [GetFileContents] stops at the first failure: when the secret
    cannot be read or has no data, it returns the error of [buildAuthHeader]
    as it is and calls neither [detect] nor the HTTP client; when [detect]
    fails, it wraps that error and sends no HTTP request. *)
Theorem GetFileContents_stops_at_first_failure :
  (forall cause, Get_Secret k8sClient namespace secret = inl cause ->
     gitfile.GetFileContents url_Parse CanonicalMIMEHeaderKey detect Do
       k8sClient namespace secret repoUrl filepath ref
     = (Returned (None, Some (fmt_Errorf "failed to read the token secret: " cause "")),
        [gitfile.FileGetSecret namespace secret]))
  /\ (forall tokenSecret,
        Get_Secret k8sClient namespace secret = inr tokenSecret ->
        Data tokenSecret = ∅ ->
        gitfile.GetFileContents url_Parse CanonicalMIMEHeaderKey detect Do
          k8sClient namespace secret repoUrl filepath ref
        = (Returned (None, Some gitfile.secretDataEmptyError),
           [gitfile.FileGetSecret namespace secret]))
  /\ (forall tokenSecret fileUrl cause,
        Get_Secret k8sClient namespace secret = inr tokenSecret ->
        Data tokenSecret <> ∅ ->
        detect repoUrl filepath ref
          {[ "Authorization" :=
               "Bearer " +:+ string_of_bytes (default [] (Data tokenSecret !! "password")) ]}
        = (fileUrl, Some cause) ->
        gitfile.GetFileContents url_Parse CanonicalMIMEHeaderKey detect Do
          k8sClient namespace secret repoUrl filepath ref
        = (Returned (None, Some (fmt_Errorf "error detecting file download URL: " cause "")),
           [gitfile.FileGetSecret namespace secret;
            gitfile.FileDetect repoUrl filepath ref
              {[ "Authorization" :=
                   "Bearer " +:+ string_of_bytes
                                   (default [] (Data tokenSecret !! "password")) ]}])).
Proof.
  split; [|split].
  - intros cause HG. unfold gitfile.GetFileContents, gitfile.buildAuthHeader.
    cbn [bind call]. now rewrite HG.
  - intros tokenSecret HG HE. unfold gitfile.GetFileContents.
    now rewrite (buildAuthHeader_empty tokenSecret HG HE).
  - intros tokenSecret fileUrl cause HG HE HD.
    rewrite (GetFileContents_with_header tokenSecret HG HE). cbv zeta. now rewrite HD.
Qed.

End GitFileProperties.

(** ** The further properties on the sample collaborators *)

Lemma Lookup_returns_every_match_witness :
  RepoUrlParser sample.lookup (RepoUrl sample.request) = (Some sample.parsed, None)
  /\ (forall t, In t [sample.alice; sample.bob; sample.erin] -> ready t = true ->
                fails sample.lookup sample.request t = false)
  /\ exists result calls,
       Lookup sample.lookup [1%nat] (sample.client [sample.alice; sample.bob; sample.erin] [] ∅)
         sample.request
       = (Returned (Some result, None), calls)
       /\ result ≡ₚ omap (candidate_match sample.lookup sample.request)
                      (List.filter ready [sample.alice; sample.bob; sample.erin])
       /\ (length result <= 3)%nat.
Proof.
  assert (HP : RepoUrlParser sample.lookup (RepoUrl sample.request) = (Some sample.parsed, None))
    by (vm_compute; reflexivity).
  assert (HF : forall t, In t [sample.alice; sample.bob; sample.erin] -> ready t = true ->
                         fails sample.lookup sample.request t = false)
    by (intros t [<-|[<-|[<-|[]]]] _; vm_compute; reflexivity).
  split; [exact HP | split; [exact HF|]].
  exact (Lookup_returns_every_match sample.lookup sample.request [1%nat]
           (sample.client [sample.alice; sample.bob; sample.erin] [] ∅) sample.parsed
           [sample.alice; sample.bob; sample.erin] HP eq_refl HF).
Defined.

Lemma Lookup_schedule_changes_order_only_witness :
  Lookup sample.lookup [] (sample.client [sample.alice; sample.erin] [] ∅) sample.request
  = (Returned (Some [sample.refreshed sample.alice; sample.refreshed sample.erin], None),
     sample.listTokens :: flat_map (candidate_calls sample.lookup) [sample.alice; sample.erin])
  /\ exists tokens2 err2 calls2,
       Lookup sample.lookup [1%nat] (sample.client [sample.alice; sample.erin] [] ∅)
         sample.request
       = (Returned (tokens2, err2), calls2)
       /\ [sample.refreshed sample.alice; sample.refreshed sample.erin] ≡ₚ items tokens2
       /\ (@None error = None <-> err2 = None)
       /\ sample.listTokens
          :: flat_map (candidate_calls sample.lookup) [sample.alice; sample.erin] ≡ₚ calls2.
Proof.
  assert (HL : Lookup sample.lookup [] (sample.client [sample.alice; sample.erin] [] ∅)
                 sample.request
               = (Returned (Some [sample.refreshed sample.alice; sample.refreshed sample.erin], None),
                  sample.listTokens
                  :: flat_map (candidate_calls sample.lookup) [sample.alice; sample.erin]))
    by (vm_compute; reflexivity).
  split; [exact HL|].
  exact (Lookup_schedule_changes_order_only sample.lookup sample.request [] [1%nat]
           (sample.client [sample.alice; sample.erin] [] ∅) _ _ _ HL).
Defined.

Lemma Lookup_evaluates_each_ready_candidate_witness :
  RepoUrlParser sample.lookup (RepoUrl sample.request) = (Some sample.parsed, None)
  /\ exists evaluations,
       snd (Lookup sample.lookup [2%nat]
              (sample.client [sample.alice; sample.bob; sample.carol] [] ∅) sample.request)
       = sample.listTokens :: evaluations
       /\ evaluations ≡ₚ flat_map (candidate_calls sample.lookup)
                           (List.filter ready [sample.alice; sample.bob; sample.carol])
       /\ (forall t, In (CallEnsure t) evaluations
                     <-> In t [sample.alice; sample.bob; sample.carol] /\ ready t = true)
       /\ (forall t', In (CallTokenFilter t') evaluations <->
                      exists t, In t [sample.alice; sample.bob; sample.carol] /\ ready t = true
                                /\ MetadataCache sample.lookup (MetadataProvider sample.lookup) t
                                   = (t', None)).
Proof.
  assert (HP : RepoUrlParser sample.lookup (RepoUrl sample.request) = (Some sample.parsed, None))
    by (vm_compute; reflexivity).
  split; [exact HP|].
  exact (Lookup_evaluates_each_ready_candidate sample.lookup sample.request [2%nat]
           (sample.client [sample.alice; sample.bob; sample.carol] [] ∅) sample.parsed
           [sample.alice; sample.bob; sample.carol] HP eq_refl).
Defined.

Lemma LookupCredentials_parser_failure_witness :
  RepoUrlParser sample.lookup (RepoUrl sample.bad_request)
  = (None, Some (fmt_Errorf "invalid url: " (foreign "invalid character in URL") ""))
  /\ LookupCredentials sample.Values sample.RepositoryAnnotation sample.lookup []
       (sample.client [sample.alice] [sample.unscoped] sample.secrets) sample.bad_request
     = (Returned (None,
                  Some (fmt_Errorf "error parsing the host from repo URL gitlab.com/org/my repo: "
                          (fmt_Errorf "invalid url: " (foreign "invalid character in URL") "") "")),
        []).
Proof.
  assert (HP : RepoUrlParser sample.lookup (RepoUrl sample.bad_request)
               = (None, Some (fmt_Errorf "invalid url: " (foreign "invalid character in URL") "")))
    by (vm_compute; reflexivity).
  split; [exact HP|].
  exact (proj2 (LookupCredentials_parser_failure sample.Values sample.RepositoryAnnotation
                  sample.lookup (sample.client [sample.alice] [sample.unscoped] sample.secrets)
                  sample.bad_request [] _ _ HP)).
Defined.

Lemma LookupCredentials_no_fallback_on_error_witness :
  Lookup sample.lookup [] (sample.client [sample.alice; sample.carol] [sample.unscoped] sample.secrets)
    sample.request
  = (Returned (None,
               Some (fmt_Errorf "errors while examining the potential matches: "
                       (aggregate [foreign "metadata fetch failed"]) "")),
     sample.listTokens :: flat_map (candidate_calls sample.lookup) [sample.alice; sample.carol])
  /\ LookupCredentials sample.Values sample.RepositoryAnnotation sample.lookup []
       (sample.client [sample.alice; sample.carol] [sample.unscoped] sample.secrets)
       sample.request
     = (Returned (None,
                  Some (fmt_Errorf "errors while examining the potential matches: "
                          (aggregate [foreign "metadata fetch failed"]) "")),
        sample.listTokens :: flat_map (candidate_calls sample.lookup) [sample.alice; sample.carol]).
Proof.
  assert (HL : Lookup sample.lookup []
                 (sample.client [sample.alice; sample.carol] [sample.unscoped] sample.secrets)
                 sample.request
               = (Returned (None,
                            Some (fmt_Errorf "errors while examining the potential matches: "
                                    (aggregate [foreign "metadata fetch failed"]) "")),
                  sample.listTokens
                  :: flat_map (candidate_calls sample.lookup) [sample.alice; sample.carol]))
    by (vm_compute; reflexivity).
  split; [exact HL|].
  exact (proj1 (LookupCredentials_no_fallback_on_error sample.Values sample.RepositoryAnnotation
                  sample.lookup
                  (sample.client [sample.alice; sample.carol] [sample.unscoped] sample.secrets)
                  sample.request [] _ _ _ HL)).
Defined.

Lemma lookupRemoteSecrets_keeps_accepted_witness :
  RepoUrlParser sample.lookup_filtered (RepoUrl sample.request) = (Some sample.parsed, None)
  /\ List.filter (accepted sample.lookup_filtered sample.request)
       [sample.unscoped; sample.broken; sample.scoped]
     = [sample.unscoped; sample.scoped]
  /\ lookupRemoteSecrets sample.lookup_filtered
       (sample.client [] [sample.unscoped; sample.broken; sample.scoped] sample.secrets)
       sample.request
     = (Returned (Some (List.filter (accepted sample.lookup_filtered sample.request)
                          [sample.unscoped; sample.broken; sample.scoped]), None),
        [sample.listRemoteSecrets; CallRemoteSecretFilter sample.unscoped;
         CallRemoteSecretFilter sample.broken; CallRemoteSecretFilter sample.scoped]).
Proof.
  assert (HP : RepoUrlParser sample.lookup_filtered (RepoUrl sample.request)
               = (Some sample.parsed, None)) by (vm_compute; reflexivity).
  split; [exact HP | split; [reflexivity|]].
  exact (proj1 (lookupRemoteSecrets_keeps_accepted sample.lookup_filtered
                  (sample.client [] [sample.unscoped; sample.broken; sample.scoped] sample.secrets)
                  sample.request sample.parsed [sample.unscoped; sample.broken; sample.scoped]
                  HP eq_refl)).
Defined.

Lemma lookupRemoteSecretSecret_secret_or_error_witness :
  RepoUrlParser sample.lookup (RepoUrl sample.request) = (Some sample.parsed, None)
  /\ [sample.broken] <> []
  /\ ((exists secret namespace name,
          lookupRemoteSecretSecret sample.Values sample.RepositoryAnnotation sample.lookup
            (sample.client [] [] sample.secrets) sample.request [sample.broken]
          = (Returned (Some secret, None), [CallGetSecret namespace name])
          /\ Get_Secret (sample.client [] [] sample.secrets) namespace name = inr secret)
      \/ (exists err calls,
            lookupRemoteSecretSecret sample.Values sample.RepositoryAnnotation sample.lookup
              (sample.client [] [] sample.secrets) sample.request [sample.broken]
            = (Returned (None, Some err), calls)
            /\ (length calls <= 1)%nat)).
Proof.
  assert (HP : RepoUrlParser sample.lookup (RepoUrl sample.request) = (Some sample.parsed, None))
    by (vm_compute; reflexivity).
  assert (HN : [sample.broken] <> []) by discriminate.
  split; [exact HP | split; [exact HN|]].
  exact (lookupRemoteSecretSecret_secret_or_error sample.Values sample.RepositoryAnnotation
           sample.lookup (sample.client [] [] sample.secrets) sample.request sample.parsed
           [sample.broken] HP HN).
Defined.

Lemma LookupCredentials_credentials_or_error_witness :
  LookupCredentials sample.Values sample.RepositoryAnnotation sample.lookup []
    (sample.client [sample.bob] [] ∅) sample.request
  = (Returned (None, None), [sample.listTokens; sample.listRemoteSecrets])
  /\ (@None Credentials = None \/ @None error = None).
Proof.
  assert (H : LookupCredentials sample.Values sample.RepositoryAnnotation sample.lookup []
                (sample.client [sample.bob] [] ∅) sample.request
              = (Returned (None, None), [sample.listTokens; sample.listRemoteSecrets]))
    by (vm_compute; reflexivity).
  split; [exact H|].
  exact (LookupCredentials_credentials_or_error sample.Values sample.RepositoryAnnotation
           sample.lookup (sample.client [sample.bob] [] ∅) sample.request [] _ _ _ H).
Defined.

Lemma LookupCredentials_returns_with_schemaless_parser_witness :
  RepoUrlParser sample.lookup = RepoUrlFromSchemalessString sample.url_Parse
  /\ exists out calls,
       LookupCredentials sample.Values sample.RepositoryAnnotation sample.lookup [3%nat; 1%nat]
         (sample.client [sample.alice; sample.bob; sample.carol; sample.dave]
            [sample.broken] sample.secrets) sample.request
       = (Returned out, calls).
Proof.
  split; [reflexivity|].
  exact (LookupCredentials_returns_with_schemaless_parser sample.Values
           sample.RepositoryAnnotation sample.lookup
           (sample.client [sample.alice; sample.bob; sample.carol; sample.dave]
              [sample.broken] sample.secrets) sample.request
           sample.url_Parse [3%nat; 1%nat] eq_refl).
Defined.

Lemma RepoUrlFromSchemalessString_keeps_given_scheme_witness :
  occurs_in "://" "http://gitlab.com/org/repo"
  /\ RepoUrlFromSchemalessString sample.url_Parse "http://gitlab.com/org/repo"
     = (Some {| Scheme := "http"; Host := "gitlab.com"; Path := "/org/repo" |}, None).
Proof.
  assert (H : occurs_in "://" "http://gitlab.com/org/repo")
    by (now exists "http", "gitlab.com/org/repo").
  split; [exact H|].
  apply (RepoUrlFromSchemalessString_keeps_given_scheme sample.url_Parse _ H).
  reflexivity.
Defined.

Lemma checkPrivateRepoAccess_reports_in_status_witness :
  checkPrivateRepoAccess sample.Values sample.RepositoryAnnotation sample.Error_
    sample.provider [] (sample.client [sample.alice] [] ∅)
    (sample.check "https://gitlab.com/org/repo")
  = (Returned (Some {| Accessible := false;
                       Accessibility := SPIAccessCheckAccessibilityUnknown;
                       Type_Repo := SPIRepoTypeGit;
                       ServiceProvider := ServiceProviderTypeGitLab;
                       ErrorReason := SPIAccessCheckErrorUnknownError;
                       ErrorMessage := "no client" |}, None),
     [CallParseOwnerAndProject "https://gitlab.com/org/repo"; sample.listTokens;
      CallEnsure sample.alice; CallTokenFilter (sample.refreshed sample.alice);
      CallTokenStorageGet (sample.refreshed sample.alice);
      CallCreateAuthenticatedClient {| Cred_Username := "alice"; Cred_Token := "glpat-1" |}])
  /\ exists status,
       (Some {| Accessible := false;
                Accessibility := SPIAccessCheckAccessibilityUnknown;
                Type_Repo := SPIRepoTypeGit;
                ServiceProvider := ServiceProviderTypeGitLab;
                ErrorReason := SPIAccessCheckErrorUnknownError;
                ErrorMessage := "no client" |}, @None error) = (Some status, None)
       /\ Type_Repo status = SPIRepoTypeGit
       /\ ServiceProvider status = ServiceProviderTypeGitLab
       /\ Accessibility status <> SPIAccessCheckAccessibilityPublic
       /\ (ErrorReason status <> SPIAccessCheckErrorNone ->
           Accessible status = false
           /\ Accessibility status = SPIAccessCheckAccessibilityUnknown)
       /\ (Accessible status = true ->
           ErrorReason status = SPIAccessCheckErrorNone /\ ErrorMessage status = "").
Proof.
  assert (H : checkPrivateRepoAccess sample.Values sample.RepositoryAnnotation sample.Error_
                sample.provider [] (sample.client [sample.alice] [] ∅)
                (sample.check "https://gitlab.com/org/repo")
              = (Returned (Some {| Accessible := false;
                                   Accessibility := SPIAccessCheckAccessibilityUnknown;
                                   Type_Repo := SPIRepoTypeGit;
                                   ServiceProvider := ServiceProviderTypeGitLab;
                                   ErrorReason := SPIAccessCheckErrorUnknownError;
                                   ErrorMessage := "no client" |}, None),
                 [CallParseOwnerAndProject "https://gitlab.com/org/repo"; sample.listTokens;
                  CallEnsure sample.alice; CallTokenFilter (sample.refreshed sample.alice);
                  CallTokenStorageGet (sample.refreshed sample.alice);
                  CallCreateAuthenticatedClient
                    {| Cred_Username := "alice"; Cred_Token := "glpat-1" |}]))
    by (vm_compute; reflexivity).
  split; [exact H|].
  exact (checkPrivateRepoAccess_reports_in_status sample.Values sample.RepositoryAnnotation
           sample.Error_ sample.provider [] (sample.client [sample.alice] [] ∅)
           (sample.check "https://gitlab.com/org/repo") _ _ H).
Defined.


Lemma checkPrivateRepoAccess_client_needs_credentials_witness :
  In (CallCreateAuthenticatedClient {| Cred_Username := "alice"; Cred_Token := "glpat-1" |})
    (snd (checkPrivateRepoAccess sample.Values sample.RepositoryAnnotation sample.Error_
            sample.provider [] (sample.client [sample.alice] [] ∅)
            (sample.check "https://gitlab.com/org/repo")))
  /\ fst (LookupCredentials sample.Values sample.RepositoryAnnotation
            (lookup sample.provider) [] (sample.client [sample.alice] [] ∅)
            (Matchable_of_SPIAccessCheck (sample.check "https://gitlab.com/org/repo")))
     = Returned (Some {| Cred_Username := "alice"; Cred_Token := "glpat-1" |}, None).
Proof.
  assert (H : In (CallCreateAuthenticatedClient
                    {| Cred_Username := "alice"; Cred_Token := "glpat-1" |})
                (snd (checkPrivateRepoAccess sample.Values sample.RepositoryAnnotation
                        sample.Error_ sample.provider [] (sample.client [sample.alice] [] ∅)
                        (sample.check "https://gitlab.com/org/repo")))).
  { vm_compute. do 5 right. left. reflexivity. }
  split; [exact H|].
  exact (proj1 (proj1 (checkPrivateRepoAccess_client_needs_credentials
                         sample.Values sample.RepositoryAnnotation sample.Error_
                         sample.provider [] (sample.client [sample.alice] [] ∅)
                         (sample.check "https://gitlab.com/org/repo") _ H)
                  _ eq_refl)).
Defined.

Lemma buildAuthHeader_bearer_witness :
  Get_Secret (sample.client [] [] sample.file_secrets) "ns" "without-password"
  = inr {| Data := {[ "username" := list_byte_of_string "bot" ]} |}
  /\ exists authHeaders,
       fst (gitfile.buildAuthHeader (sample.client [] [] sample.file_secrets)
              "ns" "without-password")
       = Returned (Some authHeaders, None)
       /\ map_to_list authHeaders = [("Authorization", "Bearer ")]
       /\ authHeaders !! "Authorization" = Some "Bearer ".
Proof.
  assert (HG : Get_Secret (sample.client [] [] sample.file_secrets) "ns" "without-password"
               = inr {| Data := {[ "username" := list_byte_of_string "bot" ]} |})
    by (vm_compute; reflexivity).
  split; [exact HG|].
  destruct (proj2 (buildAuthHeader_bearer (sample.client [] [] sample.file_secrets)
                     "ns" "without-password" _ HG)) as (h & H1 & H2 & H3).
  { intros E. apply (f_equal (fun m => m !! "username")) in E. vm_compute in E. discriminate. }
  exists h. split; [exact H1 | split; [exact H2 | exact (H3 eq_refl)]].
Defined.

Lemma GetFileContents_sends_bearer_witness :
  In (gitfile.FileDo
        {| Method := "GET";
           Request_URL := {| Scheme := "https"; Host := "gitlab.com";
                             Path := "/org/repo/-/raw/main/README.md" |};
           Header := [("Authorization", "Bearer glpat-4")] |})
    (snd (gitfile.GetFileContents sample.url_Parse (fun k => k) sample.detect sample.Do
            (sample.client [] [] sample.file_secrets) "ns" "with-password"
            "https://gitlab.com/org/repo" "README.md" "main"))
  /\ exists tokenSecret authHeaders fileUrl u,
       Get_Secret (sample.client [] [] sample.file_secrets) "ns" "with-password" = inr tokenSecret
       /\ Data tokenSecret <> ∅
       /\ authHeaders
          = {[ "Authorization" :=
                 "Bearer " +:+ string_of_bytes (default [] (Data tokenSecret !! "password")) ]}
       /\ sample.detect "https://gitlab.com/org/repo" "README.md" "main" authHeaders
          = (fileUrl, None)
       /\ sample.url_Parse fileUrl = inr u
       /\ {| Method := "GET";
             Request_URL := {| Scheme := "https"; Host := "gitlab.com";
                               Path := "/org/repo/-/raw/main/README.md" |};
             Header := [("Authorization", "Bearer glpat-4")] |}
          = {| Method := "GET"; Request_URL := u;
               Header := [("Authorization",
                           "Bearer " +:+ string_of_bytes
                                           (default [] (Data tokenSecret !! "password")))] |}.
Proof.
  assert (H : In (gitfile.FileDo
                    {| Method := "GET";
                       Request_URL := {| Scheme := "https"; Host := "gitlab.com";
                                         Path := "/org/repo/-/raw/main/README.md" |};
                       Header := [("Authorization", "Bearer glpat-4")] |})
                (snd (gitfile.GetFileContents sample.url_Parse (fun k => k) sample.detect
                        sample.Do (sample.client [] [] sample.file_secrets) "ns" "with-password"
                        "https://gitlab.com/org/repo" "README.md" "main"))).
  { vm_compute. do 2 right. left. reflexivity. }
  split; [exact H|].
  exact (proj2 (GetFileContents_sends_bearer sample.url_Parse (fun k => k) sample.detect
                  sample.Do (sample.client [] [] sample.file_secrets) "ns" "with-password"
                  "https://gitlab.com/org/repo" "README.md" "main" _ H) _ eq_refl).
Defined.

Lemma GetFileContents_ignores_status_witness :
  Get_Secret (sample.client [] [] sample.file_secrets) "ns" "with-password"
  = inr {| Data := {[ "password" := list_byte_of_string "glpat-4" ]} |}
  /\ sample.Do {| Method := "GET";
                  Request_URL := {| Scheme := "https"; Host := "gitlab.com";
                                    Path := "/org/repo/-/raw/main/README.md" |};
                  Header := [("Authorization", "Bearer glpat-4")] |}
     = (Some {| gitfile.File_StatusCode := 404;
                gitfile.File_Body := list_byte_of_string "404 page not found" |}, None)
  /\ fst (gitfile.GetFileContents sample.url_Parse (fun k => k) sample.detect sample.Do
            (sample.client [] [] sample.file_secrets) "ns" "with-password"
            "https://gitlab.com/org/repo" "README.md" "main")
     = Returned (Some (list_byte_of_string "404 page not found"), None).
Proof.
  assert (HG : Get_Secret (sample.client [] [] sample.file_secrets) "ns" "with-password"
               = inr {| Data := {[ "password" := list_byte_of_string "glpat-4" ]} |})
    by (vm_compute; reflexivity).
  split; [exact HG | split; [reflexivity|]].
  apply (GetFileContents_ignores_status sample.url_Parse (fun k => k) sample.detect sample.Do
           (sample.client [] [] sample.file_secrets) "ns" "with-password"
           "https://gitlab.com/org/repo" "README.md" "main" _
           "https://gitlab.com/org/repo/-/raw/main/README.md"
           {| Scheme := "https"; Host := "gitlab.com"; Path := "/org/repo/-/raw/main/README.md" |}
           {| gitfile.File_StatusCode := 404;
              gitfile.File_Body := list_byte_of_string "404 page not found" |} HG).
  - intros E. apply (f_equal (fun m => m !! "password")) in E. vm_compute in E. discriminate.
  - vm_compute. reflexivity.
  - vm_compute. reflexivity.
  - reflexivity.
Defined.

Lemma GetFileContents_panics_on_unparsable_url_witness :
  Get_Secret (sample.client [] [] sample.file_secrets) "ns" "with-password"
  = inr {| Data := {[ "password" := list_byte_of_string "glpat-4" ]} |}
  /\ sample.url_Parse "https://gitlab.com/org/my repo/-/raw/main/README.md"
     = inl (foreign "invalid character in URL")
  /\ fst (gitfile.GetFileContents sample.url_Parse (fun k => k) sample.detect sample.Do
            (sample.client [] [] sample.file_secrets) "ns" "with-password"
            "https://gitlab.com/org/my repo" "README.md" "main")
     = Panicked "nil pointer dereference".
Proof.
  assert (HG : Get_Secret (sample.client [] [] sample.file_secrets) "ns" "with-password"
               = inr {| Data := {[ "password" := list_byte_of_string "glpat-4" ]} |})
    by (vm_compute; reflexivity).
  assert (HU : sample.url_Parse "https://gitlab.com/org/my repo/-/raw/main/README.md"
               = inl (foreign "invalid character in URL")) by (vm_compute; reflexivity).
  split; [exact HG | split; [exact HU|]].
  rewrite (GetFileContents_panics_on_unparsable_url sample.url_Parse (fun k => k) sample.detect
             sample.Do (sample.client [] [] sample.file_secrets) "ns" "with-password"
             "https://gitlab.com/org/my repo" "README.md" "main" _
             "https://gitlab.com/org/my repo/-/raw/main/README.md"
             (foreign "invalid character in URL") HG).
  - reflexivity.
  - intros E. apply (f_equal (fun m => m !! "password")) in E. vm_compute in E. discriminate.
  - vm_compute. reflexivity.
  - exact HU.
Defined.
